(** * Garbage collection of pipeline node output artifacts

    A shallow embedding of
    [tfx/orchestration/experimental/core/garbage_collection.py]:
    retention-policy evaluation, the in-use filter, the purge step and the
    node-level entry point, with the theorems about them. *)

From Stdlib Require Import List ZArith String Bool Lia.
From Stdlib Require Import Sorting.Permutation Sorting.Sorted.
Import ListNotations.
Open Scope Z_scope.

(* ------------------------------------------------------------------ *)
(** ** Data model: MLMD records *)

(** Property values as returned by [data_types_utils.get_metadata_value]:
    the integer and string variants of an MLMD [Value]. Double, struct and
    proto values are not modelled; struct and proto values are unhashable,
    so [artifacts_by_property_value[property_value]] raises a [TypeError]
    on them. Every statement below about a property value therefore holds
    for artifacts whose values of the property concerned are ints or
    strings. *)
Inductive value :=
| VInt (z : Z)
| VStr (s : string).

(** [type(property_value)] in Python. *)
Inductive value_type := TInt | TStr.

Definition type_of (v : value) : value_type :=
  match v with VInt _ => TInt | VStr _ => TStr end.

Definition value_type_eqb (t1 t2 : value_type) : bool :=
  match t1, t2 with TInt, TInt | TStr, TStr => true | _, _ => false end.

(** Python [==] on property values (an [int] never equals a [str]). *)
Definition value_eqb (v1 v2 : value) : bool :=
  match v1, v2 with
  | VInt a, VInt b => Z.eqb a b
  | VStr a, VStr b => String.eqb a b
  | _, _ => false
  end.

(** Python [<=] on property values, used by [sorted].  Values of distinct
    types are never compared: the homogeneity check of
    [_artifacts_not_kept_by_property_value_groups] raises before [sorted]
    runs, so the cross-type cases below are unreachable. *)
Definition value_leb (v1 v2 : value) : bool :=
  match v1, v2 with
  | VInt a, VInt b => Z.leb a b
  | VStr a, VStr b => String.leb a b
  | VInt _, VStr _ => true
  | VStr _, VInt _ => false
  end.

(** [None]-or-value, with Python equality (the keys of the
    [defaultdict]). *)
Definition optval_eqb (o1 o2 : option value) : bool :=
  match o1, o2 with
  | None, None => true
  | Some v1, Some v2 => value_eqb v1 v2
  | _, _ => false
  end.

Inductive ArtifactState :=
| UNKNOWN | PENDING | LIVE | MARKED_FOR_DELETION | DELETED | ABANDONED
| REFERENCE.

(** [metadata_store_pb2.Artifact]; the two proto maps as association
    lists (their keys are distinct). *)
Record Artifact := mkArtifact {
  id : Z;
  uri : string;
  create_time_since_epoch : Z;
  properties : list (string * value);
  custom_properties : list (string * value);
  state : ArtifactState
}.

Fixpoint map_lookup (k : string) (m : list (string * value)) : option value :=
  match m with
  | [] => None
  | (k', v) :: m' => if String.eqb k k' then Some v else map_lookup k m'
  end.

(** [_get_property_value]. *)
Definition _get_property_value (a : Artifact) (property_name : string)
  : option value :=
  match map_lookup property_name (properties a) with
  | Some v => Some v
  | None => map_lookup property_name (custom_properties a)
  end.

(* ------------------------------------------------------------------ *)
(** ** Python helpers *)

(** [sorted(xs)] for a total preorder [le] (insertion sort; Python's sort
    yields the same list on the values sorted here). *)
Fixpoint insert_by {A} (le : A -> A -> bool) (x : A) (l : list A) : list A :=
  match l with
  | [] => [x]
  | y :: l' => if le x y then x :: y :: l' else y :: insert_by le x l'
  end.

Fixpoint sorted_by {A} (le : A -> A -> bool) (l : list A) : list A :=
  match l with
  | [] => []
  | x :: l' => insert_by le x (sorted_by le l')
  end.

(* ------------------------------------------------------------------ *)
(** ** Policy: [KeepMostRecentlyPublished] *)

(** [_artifacts_not_most_recently_published]: [publish_times[-n]] with
    [len(artifacts) > n > 0] is the element at index [len - n]. *)
Definition _artifacts_not_most_recently_published
    (artifacts : list Artifact) (num_artifacts : Z) : list Artifact :=
  if num_artifacts <=? 0 then artifacts
  else if Z.of_nat (List.length artifacts) <=? num_artifacts then []
  else
    let publish_times := sorted_by Z.leb (map create_time_since_epoch artifacts) in
    let cutoff_publish_time :=
      nth (List.length artifacts - Z.to_nat num_artifacts) publish_times 0 in
    filter (fun a => create_time_since_epoch a <? cutoff_publish_time) artifacts.

(* ------------------------------------------------------------------ *)
(** ** Exceptions *)

(** The Python exceptions raised along the garbage-collection path. *)
Inductive exn :=
| ValueError (msg : string)
| RuntimeError (msg : string)
| StoreError (call : string)
| OSError (path : string).

Inductive result (A : Type) :=
| Ok (x : A)
| Err (e : exn).
Arguments Ok {A} x.
Arguments Err {A} e.

Definition rbind {A B} (r : result A) (f : A -> result B) : result B :=
  match r with Ok x => f x | Err e => Err e end.

Notation "'let!' x := r 'in' k" := (rbind r (fun x => k))
  (at level 200, x name, r at level 100, k at level 200).

(* ------------------------------------------------------------------ *)
(** ** Policy: [KeepPropertyValueGroups] *)

Inductive KeepOrder :=
| KEEP_ORDER_UNSPECIFIED
| KEEP_ORDER_LARGEST
| KEEP_ORDER_SMALLEST
| KEEP_ORDER_OTHER (n : Z).  (** an enum number the code does not know *)

Record Grouping := mkGrouping {
  property_name : string;
  keep_num : Z;
  keep_order : KeepOrder
}.

(** [collections.defaultdict(list)] keyed by property value: keys in order
    of first insertion, each with its artifacts in order. *)
Definition Buckets := list (option value * list Artifact).

Fixpoint bucket_append (k : option value) (a : Artifact) (b : Buckets)
  : Buckets :=
  match b with
  | [] => [(k, [a])]
  | (k', l) :: b' =>
      if optval_eqb k k' then (k', l ++ [a]) :: b'
      else (k', l) :: bucket_append k a b'
  end.

(** [artifacts_by_property_value[k]] for a key [k] present in the dict. *)
Fixpoint bucket_get (k : option value) (b : Buckets) : list Artifact :=
  match b with
  | [] => []
  | (k', l) :: b' => if optval_eqb k k' then l else bucket_get k b'
  end.

Fixpoint bucket_has (k : option value) (b : Buckets) : bool :=
  match b with
  | [] => false
  | (k', _) :: b' => optval_eqb k k' || bucket_has k b'
  end.

(** The homogeneity check on [all_property_value_type] ([None] stands for
    [type(None)]), followed by its update. *)
Definition check_value_type (all_property_value_type : option value_type)
    (property_value : option value) : result (option value_type) :=
  match property_value with
  | None => Ok all_property_value_type
  | Some v =>
      match all_property_value_type with
      | Some t =>
          if value_type_eqb t (type_of v) then Ok (Some (type_of v))
          else Err (ValueError "Properties from the same group should have a homogenous type except NoneType.")
      | None => Ok (Some (type_of v))
      end
  end.

(** The inner [for artifact in artifact_group] loop. *)
Fixpoint bucket_group (name : string) (all_property_value_type : option value_type)
    (artifact_group : list Artifact) (b : Buckets)
  : result (option value_type * Buckets) :=
  match artifact_group with
  | [] => Ok (all_property_value_type, b)
  | artifact :: rest =>
      let property_value := _get_property_value artifact name in
      let! t := check_value_type all_property_value_type property_value in
      bucket_group name t rest (bucket_append property_value artifact b)
  end.

(** [sorted_property_values[-k:]] for [k > 0]. *)
Definition py_last {A} (k : Z) (l : list A) : list A :=
  skipn (List.length l - Z.to_nat k) l.

(** [x for x in artifacts_by_property_value.keys() if x is not None]. *)
Definition nonnull_keys (b : Buckets) : list value :=
  flat_map (fun kv => match fst kv with Some v => [v] | None => [] end) b.

(** The groups that survive one grouping within one artifact group. *)
Definition select_groups (grouping : Grouping) (b : Buckets)
  : result (list (list Artifact)) :=
  if keep_num grouping <=? 0 then Ok (map snd b)
  else
    let sorted_property_values :=
      sorted_by value_leb (nonnull_keys b) in
    let! property_values_to_keep :=
      match keep_order grouping with
      | KEEP_ORDER_UNSPECIFIED | KEEP_ORDER_LARGEST =>
          Ok (py_last (keep_num grouping) sorted_property_values)
      | KEEP_ORDER_SMALLEST =>
          Ok (firstn (Z.to_nat (keep_num grouping)) sorted_property_values)
      | KEEP_ORDER_OTHER _ => Err (ValueError "Unknown keep_order in grouping")
      end in
    let kept := map (fun v => bucket_get (Some v) b) property_values_to_keep in
    if bucket_has None b &&
       (Z.of_nat (List.length property_values_to_keep) <? keep_num grouping)
    then Ok (kept ++ [bucket_get None b])
    else Ok kept.

(** The [for artifact_group in artifact_groups] loop of one grouping;
    [all_property_value_type] is shared by all the groups. *)
Fixpoint regroup (grouping : Grouping) (all_property_value_type : option value_type)
    (artifact_groups : list (list Artifact)) : result (list (list Artifact)) :=
  match artifact_groups with
  | [] => Ok []
  | artifact_group :: rest =>
      let! tb := bucket_group (property_name grouping) all_property_value_type
                   artifact_group [] in
      let! next := select_groups grouping (snd tb) in
      let! next_rest := regroup grouping (fst tb) rest in
      Ok (next ++ next_rest)
  end.

Fixpoint apply_groupings (groupings : list Grouping)
    (artifact_groups : list (list Artifact)) : result (list (list Artifact)) :=
  match groupings with
  | [] => Ok artifact_groups
  | grouping :: rest =>
      let! next_artifact_groups := regroup grouping None artifact_groups in
      apply_groupings rest next_artifact_groups
  end.

Definition Z_mem (z : Z) (l : list Z) : bool := existsb (Z.eqb z) l.

(** [_artifacts_not_kept_by_property_value_groups]. *)
Definition _artifacts_not_kept_by_property_value_groups
    (artifacts : list Artifact) (groupings : list Grouping)
  : result (list Artifact) :=
  let! artifact_groups := apply_groupings groupings [artifacts] in
  let artifacts_ids_to_keep := map id (List.concat artifact_groups) in
  Ok (filter (fun a => negb (Z_mem (id a) artifacts_ids_to_keep)) artifacts).

(* ------------------------------------------------------------------ *)
(** ** Policies, events and executions *)

(** The [keep_if_used_in_pipeline_groups] block, read only by the
    extension hook. *)
Record KeepIfUsedInPipelineGroups := mkKeepIfUsed {
  pipeline_groups : list (list string)
}.

(** The [oneof] of [GarbageCollectionPolicy]; [PolicyUnset] is a policy
    with neither field set (or a variant this code does not know). *)
Inductive PolicyVariant :=
| KeepMostRecentlyPublished (num_artifacts : Z)
| KeepPropertyValueGroups (groupings : list Grouping)
| PolicyUnset.

Record GarbageCollectionPolicy := mkPolicy {
  policy_variant : PolicyVariant;
  keep_if_used_in_pipeline_groups : KeepIfUsedInPipelineGroups
}.

Inductive EventType :=
| EVENT_UNKNOWN | DECLARED_OUTPUT | DECLARED_INPUT | INPUT | OUTPUT
| INTERNAL_INPUT | INTERNAL_OUTPUT | PENDING_OUTPUT.

Record Event := mkEvent {
  artifact_id : Z;
  execution_id : Z;
  event_type : EventType
}.

Inductive ExecutionState :=
| EXEC_UNKNOWN | NEW | RUNNING | COMPLETE | FAILED | CACHED | CANCELED.

Record Execution := mkExecution {
  exec_id : Z;
  last_known_state : ExecutionState
}.

(** [{e.id: e for e in executions}[i]]: the last execution with id [i]. *)
Definition lookup_execution (i : Z) (executions : list Execution)
  : option Execution :=
  fold_left (fun acc e => if exec_id e =? i then Some e else acc)
    executions None.

(** [_artifacts_to_garbage_collect_for_policy]; an unset policy is logged
    and selects nothing. *)
Definition _artifacts_to_garbage_collect_for_policy
    (artifacts : list Artifact) (policy : GarbageCollectionPolicy)
  : result (list Artifact) :=
  match policy_variant policy with
  | KeepMostRecentlyPublished n =>
      Ok (_artifacts_not_most_recently_published artifacts n)
  | KeepPropertyValueGroups groupings =>
      _artifacts_not_kept_by_property_value_groups artifacts groupings
  | PolicyUnset => Ok []
  end.

(* ------------------------------------------------------------------ *)
(** ** Reference readings of the retention rules

    The retention rules in the terms of the documentation, stated per
    artifact; the theorems below compare them with the code above. *)

(** Strict order on property values. *)
Definition value_ltb (v w : value) : bool := negb (value_leb w v).

Fixpoint vdedup (l : list value) : list value :=
  match l with
  | [] => []
  | v :: l' => if existsb (value_eqb v) l' then vdedup l' else v :: vdedup l'
  end.

(** The distinct non-null values of property [p] within a group. *)
Definition distinct_values (p : string) (group : list Artifact) : list value :=
  vdedup (flat_map (fun a => match _get_property_value a p with
                             | Some v => [v] | None => [] end) group).

(** Whether grouping [g] retains, within [group], the artifacts whose value
    is [o]: every value if [keep_num <= 0]; otherwise a non-null value with
    fewer than [keep_num] distinct values of the group ranked before it
    (larger ones for LARGEST and UNSPECIFIED, smaller ones for SMALLEST),
    and the null value when the group has fewer than [keep_num] distinct
    non-null values. *)
Definition retained_by (g : Grouping) (group : list Artifact) (o : option value)
  : bool :=
  if keep_num g <=? 0 then true
  else
    let V := distinct_values (property_name g) group in
    match keep_order g, o with
    | KEEP_ORDER_OTHER _, _ => false
    | KEEP_ORDER_SMALLEST, Some v =>
        Z.of_nat (List.length (filter (fun w => value_ltb w v) V)) <? keep_num g
    | _, Some v =>
        Z.of_nat (List.length (filter (value_ltb v) V)) <? keep_num g
    | _, None => Z.of_nat (List.length V) <? keep_num g
    end.

(** An artifact of [group] is kept by the groupings [gs] when every grouping
    retains its value within the sub-group of the artifacts that agree with
    it on all the previous groupings' properties. *)
Fixpoint kept_by_groupings (gs : list Grouping) (group : list Artifact)
    (a : Artifact) : bool :=
  match gs with
  | [] => true
  | g :: gs' =>
      let o := _get_property_value a (property_name g) in
      retained_by g group o &&
      kept_by_groupings gs'
        (filter (fun b => optval_eqb (_get_property_value b (property_name g)) o)
           group) a
  end.

(** [A \ D], artifacts identified by id. *)
Definition artifacts_minus (A D : list Artifact) : list Artifact :=
  filter (fun a => negb (Z_mem (id a) (map id D))) A.

(* ------------------------------------------------------------------ *)
(** ** Filesystem and purge-side world *)

(** The storage seen through [fileio]: which paths exist, which are
    directories, and which refuse removal (e.g. permission denied). *)
Record FileSystem := mkFileSystem {
  fs_exists : string -> bool;
  fs_isdir : string -> bool;
  fs_denied : string -> bool
}.

Inductive FsOp :=
| OpIsDir (path : string)
| OpRmTree (path : string)
| OpRemove (path : string)
| OpExists (path : string).

Definition op_path (o : FsOp) : string :=
  match o with
  | OpIsDir p | OpRmTree p | OpRemove p | OpExists p => p
  end.

(** Everything a pass can change: the storage, the trace of storage calls
    it made, and the batches written with [put_artifacts]. *)
Record World := mkWorld {
  fs : FileSystem;
  fs_trace : list FsOp;
  store_writes : list (list Artifact)
}.

(** A small state-and-exception monad: a raised exception keeps the
    effects performed before it, as in Python. *)
Definition M (A : Type) := World -> result A * World.

Definition ret {A} (x : A) : M A := fun w => (Ok x, w).
Definition raise {A} (e : exn) : M A := fun w => (Err e, w).
Definition bind {A B} (m : M A) (k : A -> M B) : M B :=
  fun w => match m w with
           | (Ok x, w') => k x w'
           | (Err e, w') => (Err e, w')
           end.
Definition lift {A} (r : result A) : M A :=
  fun w => (r, w).
(** [try: m except Exception: h]. *)
Definition try_except {A} (m : M A) (h : exn -> M A) : M A :=
  fun w => match m w with
           | (Ok x, w') => (Ok x, w')
           | (Err e, w') => h e w'
           end.

Notation "'let*' x := m 'in' k" := (bind m (fun x => k))
  (at level 200, x name, m at level 100, k at level 200).

Definition log_op (o : FsOp) (w : World) : World :=
  mkWorld (fs w) (fs_trace w ++ [o]) (store_writes w).

Definition set_fs (f : FileSystem) (w : World) : World :=
  mkWorld f (fs_trace w) (store_writes w).

Definition under (dir p : string) : bool :=
  String.eqb p dir || String.prefix (dir ++ "/") p.

(** [fileio.isdir] and [fileio.exists]. *)
Definition fileio_isdir (path : string) : M bool :=
  fun w => (Ok (fs_isdir (fs w) path), log_op (OpIsDir path) w).

Definition fileio_exists (path : string) : M bool :=
  fun w => (Ok (fs_exists (fs w) path), log_op (OpExists path) w).

(** [fileio.rmtree] / [fileio.remove]: raise when the path is missing or
    refuses removal; otherwise the path (with everything under it, for
    [rmtree]) is gone. *)
Definition fs_remove_paths (gone : string -> bool) (f : FileSystem) : FileSystem :=
  mkFileSystem (fun p => fs_exists f p && negb (gone p))
               (fun p => fs_isdir f p && negb (gone p))
               (fs_denied f).

(** Whether [fileio.remove] / [fileio.rmtree] on [path] succeeds. *)
Definition removal_succeeds (f : FileSystem) (path : string) : bool :=
  fs_exists f path && negb (fs_denied f path).

Definition fileio_rmtree (path : string) : M unit :=
  fun w =>
    let w1 := log_op (OpRmTree path) w in
    if removal_succeeds (fs w) path
    then (Ok tt, set_fs (fs_remove_paths (under path) (fs w)) w1)
    else (Err (OSError path), w1).

Definition fileio_remove (path : string) : M unit :=
  fun w =>
    let w1 := log_op (OpRemove path) w in
    if removal_succeeds (fs w) path
    then (Ok tt, set_fs (fs_remove_paths (String.eqb path) (fs w)) w1)
    else (Err (OSError path), w1).

(* ------------------------------------------------------------------ *)
(** ** The garbage-collection pass over the metadata store *)

Record NodeUid := mkNodeUid {
  pipeline_id : string;
  node_id : string
}.

(** The part of [NodeProtoView] the pass reads: [node_info.id] and, per
    output key, the optional [garbage_collection_policy]. *)
Record Node := mkNode {
  node_info_id : string;
  outputs : list (string * option GarbageCollectionPolicy)
}.

(** [_is_artifact_external]: [_get_property_value(a, 'is_external') == 1]. *)
Definition _is_artifact_external (a : Artifact) : bool :=
  match _get_property_value a "is_external" with
  | Some (VInt 1) => true
  | _ => false
  end.

Definition set_state (s : ArtifactState) (a : Artifact) : Artifact :=
  mkArtifact (id a) (uri a) (create_time_since_epoch a) (properties a)
             (custom_properties a) s.

Fixpoint assoc {A} (k : string) (l : list (string * A)) : option A :=
  match l with
  | [] => None
  | (k', x) :: l' => if String.eqb k k' then Some x else assoc k l'
  end.

Fixpoint Z_dedup (l : list Z) : list Z :=
  match l with
  | [] => []
  | z :: l' => if Z_mem z l' then Z_dedup l' else z :: Z_dedup l'
  end.

Section Store.

(** [event_lib.is_valid_input_event] and [execution_lib.is_execution_active]:
    which events count as inputs and which executions as active. *)
Variable is_valid_input_event : Event -> bool.
Variable is_execution_active : Execution -> bool.

(** The metadata-store queries of one pass; each may raise. *)
Variable get_live_output_artifacts_of_node_by_output_key :
  string -> string -> result (list (string * list (list Artifact))).
Variable get_events_by_artifact_ids : list Z -> result (list Event).
Variable get_executions_by_id : list Z -> result (list Execution).
(** [True] when [put_artifacts] raises on this batch. *)
Variable put_artifacts_fails : list Artifact -> bool.

(** [garbage_collection_extensions.artifacts_not_in_use_in_pipeline_groups]. *)
Variable artifacts_not_in_use_in_pipeline_groups :
  KeepIfUsedInPipelineGroups -> list Artifact -> result (list Artifact).

(** The loop filling [in_use_artifact_ids]. *)
Fixpoint in_use_ids (execution_id_to_execution : list Execution)
    (input_events : list Event) : result (list Z) :=
  match input_events with
  | [] => Ok []
  | event :: rest =>
      match lookup_execution (execution_id event) execution_id_to_execution with
      | None => Err (RuntimeError "Could not find execution with id")
      | Some execution =>
          let! ids := in_use_ids execution_id_to_execution rest in
          if is_execution_active execution then Ok (artifact_id event :: ids)
          else Ok ids
      end
  end.

(** [_artifacts_not_in_use]. *)
Definition _artifacts_not_in_use (artifacts : list Artifact)
    (events : list Event) : result (list Artifact) :=
  let artifact_ids := map id artifacts in
  let input_events :=
    filter (fun e => Z_mem (artifact_id e) artifact_ids && is_valid_input_event e)
      events in
  let execution_ids := map execution_id input_events in
  match execution_ids with
  | [] => Ok artifacts
  | _ :: _ =>
      let! executions := get_executions_by_id execution_ids in
      let! in_use_artifact_ids := in_use_ids executions input_events in
      Ok (filter (fun a => negb (Z_mem (id a) in_use_artifact_ids)) artifacts)
  end.

(** [_artifacts_to_garbage_collect]. *)
Definition _artifacts_to_garbage_collect (artifacts : list Artifact)
    (events : list Event) (policy : GarbageCollectionPolicy)
  : result (list Artifact) :=
  let! result1 := _artifacts_to_garbage_collect_for_policy artifacts policy in
  let! result2 := artifacts_not_in_use_in_pipeline_groups
                    (keep_if_used_in_pipeline_groups policy) result1 in
  _artifacts_not_in_use result2 events.

(** [_get_garbage_collection_policies_for_node]. *)
Definition _get_garbage_collection_policies_for_node (node : Node)
  : list (string * GarbageCollectionPolicy) :=
  flat_map (fun kp => match snd kp with
                      | Some p => [(fst kp, p)]
                      | None => []
                      end) (outputs node).

(** [_get_live_output_artifacts_for_node]: the nested lists flattened. *)
Definition _get_live_output_artifacts_for_node (node_uid : NodeUid)
  : result (list (string * list Artifact)) :=
  let! by_key := get_live_output_artifacts_of_node_by_output_key
                   (pipeline_id node_uid) (node_id node_uid) in
  Ok (map (fun kn => (fst kn, List.concat (snd kn))) by_key).

(** The [for output_key, policy in policies_by_output_key.items()] loop. *)
Fixpoint collect_for_output_keys
    (artifacts_by_output_key : list (string * list Artifact))
    (events : list Event)
    (policies : list (string * GarbageCollectionPolicy))
  : result (list Artifact) :=
  match policies with
  | [] => Ok []
  | (output_key, policy) :: rest =>
      match assoc output_key artifacts_by_output_key with
      | None => collect_for_output_keys artifacts_by_output_key events rest
      | Some artifacts =>
          let! here := _artifacts_to_garbage_collect artifacts events policy in
          let! later := collect_for_output_keys artifacts_by_output_key events rest in
          Ok (here ++ later)
      end
  end.

(** [get_artifacts_to_garbage_collect_for_node]. *)
Definition get_artifacts_to_garbage_collect_for_node (node_uid : NodeUid)
    (node : Node) : result (list Artifact) :=
  let policies_by_output_key := _get_garbage_collection_policies_for_node node in
  match policies_by_output_key with
  | [] => Ok []
  | _ :: _ =>
      let! artifacts_by_output_key := _get_live_output_artifacts_for_node node_uid in
      match artifacts_by_output_key with
      | [] => Ok []
      | _ :: _ =>
          let dedupped_artifact_ids :=
            Z_dedup (map id (List.concat (map snd artifacts_by_output_key))) in
          let! events := get_events_by_artifact_ids dedupped_artifact_ids in
          collect_for_output_keys artifacts_by_output_key events
            policies_by_output_key
      end
  end.

(** [_delete_artifact_uri]: [True] when the artifact may be marked
    DELETED. *)
Definition _delete_artifact_uri (artifact : Artifact) : M bool :=
  try_except
    (let* is_dir := fileio_isdir (uri artifact) in
     let* _ := (if is_dir then fileio_rmtree (uri artifact)
                else fileio_remove (uri artifact)) in
     ret true)
    (fun _ =>
       let* exists_ := fileio_exists (uri artifact) in
       if negb exists_ then ret true else ret false).

(** The body of the [for artifact in artifacts] loop of
    [garbage_collect_artifacts]: the artifact with its (possibly updated)
    [state]. *)
Definition purge_one (artifact : Artifact) : M Artifact :=
  if _is_artifact_external artifact then ret (set_state DELETED artifact)
  else
    let* ok := _delete_artifact_uri artifact in
    if ok then ret (set_state DELETED artifact) else ret artifact.

(** The loop itself. *)
Fixpoint purge_loop (artifacts : list Artifact) : M (list Artifact) :=
  match artifacts with
  | [] => ret []
  | artifact :: rest =>
      let* updated := purge_one artifact in
      let* rest' := purge_loop rest in
      ret (updated :: rest')
  end.

(** [mlmd_handle.store.put_artifacts]. *)
Definition put_artifacts (artifacts : list Artifact) : M unit :=
  fun w =>
    if put_artifacts_fails artifacts then (Err (StoreError "put_artifacts"), w)
    else (Ok tt, mkWorld (fs w) (fs_trace w) (store_writes w ++ [artifacts])).

(** [garbage_collect_artifacts]. *)
Definition garbage_collect_artifacts (artifacts : list Artifact) : M unit :=
  match artifacts with
  | [] => ret tt
  | _ :: _ =>
      let* updated := purge_loop artifacts in
      put_artifacts updated
  end.

(** [run_garbage_collection_for_node]. *)
Definition run_garbage_collection_for_node (node_uid : NodeUid) (node : Node)
  : M unit :=
  if negb (String.eqb (node_info_id node) (node_id node_uid)) then
    raise (ValueError "Node uids do not match for garbage collection")
  else
    try_except
      (let* artifacts := lift (get_artifacts_to_garbage_collect_for_node node_uid node) in
       garbage_collect_artifacts artifacts)
      (fun _ => ret tt).

End Store.

(* ================================================================== *)
(** * Properties *)

(** ** [sorted] yields a sorted permutation *)

Section SortedBy.

Context {A : Type} (le : A -> A -> bool).
Hypothesis le_total : forall x y, le x y = false -> le y x = true.
Hypothesis le_trans : forall x y z, le x y = true -> le y z = true -> le x z = true.

Definition leP (x y : A) : Prop := le x y = true.

Lemma insert_by_perm (x : A) (l : list A) :
  Permutation (insert_by le x l) (x :: l).
Proof.
  induction l as [|y l IH]; simpl; [reflexivity|].
  destruct (le x y); [reflexivity|].
  rewrite IH. apply perm_swap.
Qed.

Lemma sorted_by_perm (l : list A) : Permutation (sorted_by le l) l.
Proof.
  induction l as [|x l IH]; simpl; [reflexivity|].
  rewrite insert_by_perm. now apply perm_skip.
Qed.

Lemma insert_by_hd (x y : A) (l : list A) :
  HdRel leP y l -> leP y x -> HdRel leP y (insert_by le x l).
Proof.
  intros Hd Hyx. destruct l as [|z l]; simpl.
  - now constructor.
  - destruct (le x z); constructor; [assumption|]. now inversion Hd.
Qed.

Lemma insert_by_sorted (x : A) (l : list A) :
  Sorted leP l -> Sorted leP (insert_by le x l).
Proof.
  induction 1 as [|y l Hs IH Hd]; simpl.
  - repeat constructor.
  - destruct (le x y) eqn:Hxy.
    + constructor; [now constructor|]. now constructor.
    + constructor; [exact IH|]. apply insert_by_hd; [exact Hd|].
      now apply le_total.
Qed.

Lemma sorted_by_strongly_sorted (l : list A) :
  StronglySorted leP (sorted_by le l).
Proof.
  apply Sorted_StronglySorted.
  - intros x y z. unfold leP. apply le_trans.
  - induction l as [|x l IH]; simpl; [constructor|].
    now apply insert_by_sorted.
Qed.

End SortedBy.

Lemma StronglySorted_skipn {A} (R : A -> A -> Prop) (i : nat) (l : list A) :
  StronglySorted R l -> StronglySorted R (skipn i l).
Proof.
  revert l. induction i as [|i IH]; intros [|x l] H; simpl; auto.
  apply IH. now inversion H.
Qed.

Lemma filter_length_perm {A} (f : A -> bool) (l l' : list A) :
  Permutation l l' -> List.length (filter f l) = List.length (filter f l').
Proof.
  induction 1; simpl; try congruence.
  - destruct (f x); simpl; congruence.
  - destruct (f x), (f y); reflexivity.
Qed.

Lemma filter_map_length {A B} (f : B -> bool) (g : A -> B) (l : list A) :
  List.length (filter f (map g l)) = List.length (filter (fun a => f (g a)) l).
Proof.
  induction l as [|x l IH]; simpl; [reflexivity|].
  destruct (f (g x)); simpl; congruence.
Qed.

Lemma Zleb_total (x y : Z) : Z.leb x y = false -> Z.leb y x = true.
Proof. intros H. apply Z.leb_gt in H. apply Z.leb_le. lia. Qed.

Lemma Zleb_trans (x y z : Z) :
  Z.leb x y = true -> Z.leb y z = true -> Z.leb x z = true.
Proof. rewrite !Z.leb_le. lia. Qed.

(** In a sorted list of length [len], at least [len - i] entries are at
    least the entry at index [i]. *)
Lemma sorted_at_least_from (l : list Z) (i : nat) :
  StronglySorted (leP Z.leb) l -> (i < List.length l)%nat ->
  (List.length l - i <= List.length (filter (fun t => Z.leb (nth i l 0%Z) t) l))%nat.
Proof.
  intros Hs Hi.
  assert (Hsk : StronglySorted (leP Z.leb) (skipn i l))
    by now apply StronglySorted_skipn.
  assert (Hnth : nth i l 0%Z = nth 0 (skipn i l) 0%Z)
    by (rewrite nth_skipn; f_equal; lia).
  rewrite Hnth.
  assert (Hlen : List.length (skipn i l) = (List.length l - i)%nat)
    by apply length_skipn.
  rewrite <- Hlen.
  set (c := nth 0 (skipn i l) 0%Z).
  assert (Hle : (List.length (filter (fun t => Z.leb c t) (skipn i l))
                 <= List.length (filter (fun t => Z.leb c t) l))%nat).
  { rewrite <- (firstn_skipn i l) at 2.
    rewrite filter_app, length_app. lia. }
  enough (List.length (filter (fun t => Z.leb c t) (skipn i l))
          = List.length (skipn i l)) by lia.
  subst c. clear Hle Hnth Hlen. destruct (skipn i l) as [|c0 t]; simpl; [reflexivity|].
  rewrite Z.leb_refl. simpl. f_equal.
  inversion Hsk as [|? ? _ Hall]; subst.
  rewrite Forall_forall in Hall.
  assert (filter (fun t0 => Z.leb c0 t0) t = t) as ->.
  { apply forallb_filter_id, forallb_forall. intros x Hx. apply Hall, Hx. }
  lia.
Qed.

(** Sample artifacts: id, uri and creation time, no properties, LIVE. *)
Definition art (i : Z) (u : string) (t : Z) : Artifact :=
  mkArtifact i u t [] [] LIVE.

Definition ts_sample : list Artifact :=
  [art 1 "/out/1" 10; art 2 "/out/2" 20; art 3 "/out/3" 20; art 4 "/out/4" 30].

(** ** KeepMostRecentlyPublished *)

(** C3 (as stated, refuted): with [n = 0] and one artifact the delete-set
    is that artifact, not empty: [num_artifacts <= 0] returns every
    artifact. *)
Lemma kmrp_zero_keeps_nothing :
  _artifacts_not_most_recently_published [art 1 "/out/1" 10] 0
  = [art 1 "/out/1" 10]
  /\ _artifacts_not_most_recently_published [art 1 "/out/1" 10] 0 <> [].
Proof. split; [reflexivity | discriminate]. Qed.

(** C3 (amended): for [KeepMostRecentlyPublished(n)], if [n <= 0] the
    delete-set is the whole artifact list; if [n > 0] and the list has at
    most [n] artifacts the delete-set is empty. *)
Theorem kmrp_small_cases (artifacts : list Artifact) (n : Z) :
  (n <= 0 -> _artifacts_not_most_recently_published artifacts n = artifacts) /\
  (0 < n -> Z.of_nat (List.length artifacts) <= n ->
   _artifacts_not_most_recently_published artifacts n = []).
Proof.
  unfold _artifacts_not_most_recently_published. split.
  - intros Hn. now replace (n <=? 0) with true by (symmetry; apply Z.leb_le; lia).
  - intros Hn Hlen.
    replace (n <=? 0) with false by (symmetry; apply Z.leb_gt; lia).
    now replace (Z.of_nat (List.length artifacts) <=? n) with true
      by (symmetry; apply Z.leb_le; lia).
Qed.

Lemma kmrp_small_cases_witness :
  _artifacts_not_most_recently_published ts_sample 0 = ts_sample /\
  _artifacts_not_most_recently_published ts_sample 4 = [].
Proof.
  split.
  - apply (proj1 (kmrp_small_cases ts_sample 0)). lia.
  - apply (proj2 (kmrp_small_cases ts_sample 4)); simpl; lia.
Defined.

(** C4: for [len(A) > n > 0], with [cutoff] the sorted timestamps' entry at
    (zero-based) index [len(A) - n], i.e. the [n]-th largest timestamp, the
    delete-set is exactly the artifacts strictly older than [cutoff];
    artifacts tied at the cutoff are kept, so at least [n] artifacts
    survive.  On timestamps [10, 20, 20, 30] with [n = 2] the delete-set is
    the artifact at 10 and three artifacts survive. *)
Theorem kmrp_cutoff :
  (forall (artifacts : list Artifact) (n : Z),
     0 < n -> n < Z.of_nat (List.length artifacts) ->
     let cutoff :=
       nth (List.length artifacts - Z.to_nat n)
           (sorted_by Z.leb (map create_time_since_epoch artifacts)) 0 in
     _artifacts_not_most_recently_published artifacts n
       = filter (fun a => create_time_since_epoch a <? cutoff) artifacts /\
     (forall a, In a artifacts ->
        (In a (_artifacts_not_most_recently_published artifacts n)
         <-> create_time_since_epoch a < cutoff)) /\
     n <= Z.of_nat (List.length
            (filter (fun a => cutoff <=? create_time_since_epoch a) artifacts)))
  /\ _artifacts_not_most_recently_published ts_sample 2 = [art 1 "/out/1" 10]
  /\ List.length (filter (fun a => negb (Z_mem (id a)
        (map id (_artifacts_not_most_recently_published ts_sample 2))))
        ts_sample) = 3%nat.
Proof.
  split; [|split; reflexivity].
  intros artifacts n Hn Hlen cutoff.
  assert (Hdel : _artifacts_not_most_recently_published artifacts n
                 = filter (fun a => create_time_since_epoch a <? cutoff) artifacts).
  { unfold _artifacts_not_most_recently_published.
    replace (n <=? 0) with false by (symmetry; apply Z.leb_gt; lia).
    replace (Z.of_nat (List.length artifacts) <=? n) with false
      by (symmetry; apply Z.leb_gt; lia).
    reflexivity. }
  split; [exact Hdel|split].
  - intros a Ha. rewrite Hdel, filter_In, Z.ltb_lt. tauto.
  - set (S := sorted_by Z.leb (map create_time_since_epoch artifacts)).
    assert (HP : Permutation S (map create_time_since_epoch artifacts)).
    { unfold S. apply sorted_by_perm. }
    assert (HS : StronglySorted (leP Z.leb) S)
      by (apply sorted_by_strongly_sorted; [apply Zleb_total | apply Zleb_trans]).
    assert (HlS : List.length S = List.length artifacts)
      by (rewrite (Permutation_length HP); apply length_map).
    pose proof (sorted_at_least_from S (List.length artifacts - Z.to_nat n) HS)
      as Hat.
    rewrite HlS in Hat.
    rewrite (filter_length_perm _ _ _ HP), filter_map_length in Hat.
    fold cutoff in Hat. subst cutoff.
    assert (Hi : (List.length artifacts - Z.to_nat n < List.length artifacts)%nat) by lia.
    specialize (Hat Hi).
    assert (Hn' : Z.of_nat (Z.to_nat n) = n) by (apply Z2Nat.id; lia).
    set (k := Z.to_nat n) in *.
    set (len := List.length artifacts) in *.
    set (m := List.length (filter _ artifacts)) in *.
    lia.
Qed.

Lemma kmrp_cutoff_witness :
  _artifacts_not_most_recently_published ts_sample 2
    = filter (fun a => create_time_since_epoch a <? 20) ts_sample.
Proof.
  exact (proj1 (proj1 kmrp_cutoff ts_sample 2 ltac:(lia) ltac:(simpl; lia))).
Defined.

(** ** The in-use filter *)

Lemma lookup_execution_fold (i : Z) (l : list Execution) (acc : option Execution)
    (x : Execution) :
  fold_left (fun acc e => if exec_id e =? i then Some e else acc) l acc = Some x ->
  acc = Some x \/ (In x l /\ exec_id x = i).
Proof.
  revert acc. induction l as [|e l IH]; simpl; intros acc H; [now left|].
  destruct (IH _ H) as [Hacc|[Hin Hid]].
  - destruct (exec_id e =? i) eqn:E.
    + right. injection Hacc as <-. split; [now left|]. now apply Z.eqb_eq.
    + now left.
  - right. split; [now right|exact Hid].
Qed.

Lemma lookup_execution_some (i : Z) (l : list Execution) (x : Execution) :
  lookup_execution i l = Some x -> In x l /\ exec_id x = i.
Proof.
  unfold lookup_execution. intros H.
  destruct (lookup_execution_fold i l None x H) as [H'|H']; [discriminate|exact H'].
Qed.

Lemma NoDup_map_inj {A B} (f : A -> B) (l : list A) (x y : A) :
  NoDup (map f l) -> In x l -> In y l -> f x = f y -> x = y.
Proof.
  induction l as [|z l IH]; simpl; [tauto|].
  intros Hnd Hx Hy Hf. inversion Hnd as [|? ? Hnin Hnd']; subst.
  destruct Hx as [<-|Hx], Hy as [<-|Hy]; auto.
  - exfalso. apply Hnin. rewrite Hf. now apply in_map.
  - exfalso. apply Hnin. rewrite <- Hf. now apply in_map.
Qed.

Lemma Z_mem_In (z : Z) (l : list Z) : Z_mem z l = true <-> In z l.
Proof.
  unfold Z_mem. rewrite existsb_exists. split.
  - intros [x [Hx Hz]]. apply Z.eqb_eq in Hz. now subst.
  - intros H. exists z. split; [exact H|]. apply Z.eqb_refl.
Qed.

Section InUse.

Variable is_valid_input_event : Event -> bool.
Variable is_execution_active : Execution -> bool.
Variable get_executions_by_id : list Z -> result (list Execution).

Lemma in_use_ids_spec (executions : list Execution) (input_events : list Event)
    (ids : list Z) (e : Event) :
  in_use_ids is_execution_active executions input_events = Ok ids ->
  In e input_events ->
  exists x, lookup_execution (execution_id e) executions = Some x /\
            (is_execution_active x = true -> In (artifact_id e) ids).
Proof.
  revert ids. induction input_events as [|ev rest IH]; simpl; intros ids H Hin;
    [contradiction|].
  destruct (lookup_execution (execution_id ev) executions) as [x|] eqn:Hl;
    [|discriminate].
  destruct (in_use_ids is_execution_active executions rest) as [ids'|err] eqn:Hr;
    simpl in H; [|discriminate].
  assert (Hsub : forall z, In z ids' -> In z ids).
  { destruct (is_execution_active x); injection H as <-; simpl; auto. }
  destruct Hin as [<-|Hin].
  - exists x. split; [exact Hl|]. intros Ha. rewrite Ha in H.
    injection H as <-. now left.
  - destruct (IH ids' eq_refl Hin) as [y [Hy Hact]].
    exists y. split; [exact Hy|]. intros Ha. apply Hsub, Hact, Ha.
Qed.

(** The executions the store returns are executions of the store, whose
    ids are unique. *)
Definition store_returns_from (store_executions : list Execution) : Prop :=
  NoDup (map exec_id store_executions) /\
  forall ids executions, get_executions_by_id ids = Ok executions ->
    forall x, In x executions -> In x store_executions.

Lemma not_in_use_sound (store_executions : list Execution)
    (artifacts : list Artifact) (events : list Event) (res : list Artifact) :
  store_returns_from store_executions ->
  _artifacts_not_in_use is_valid_input_event is_execution_active
    get_executions_by_id artifacts events = Ok res ->
  forall a e x, In a res -> In e events -> artifact_id e = id a ->
    is_valid_input_event e = true ->
    In x store_executions -> exec_id x = execution_id e ->
    is_execution_active x = false.
Proof.
  intros [Hnd Hret] H a e x Ha He Hae Hv Hx Hxe.
  unfold _artifacts_not_in_use in H.
  set (input_events := filter (fun e0 => Z_mem (artifact_id e0) (map id artifacts)
                                         && is_valid_input_event e0) events) in *.
  destruct (map execution_id input_events) as [|i is] eqn:Hids.
  - injection H as <-. exfalso.
    assert (Hin : In e input_events).
    { apply filter_In. split; [exact He|]. rewrite Hv, andb_true_r, Z_mem_In, Hae.
      now apply in_map. }
    apply (in_map execution_id) in Hin. rewrite Hids in Hin. contradiction.
  - destruct (get_executions_by_id (i :: is)) as [executions|err] eqn:Hg;
      simpl in H; [|discriminate].
    destruct (in_use_ids is_execution_active executions input_events)
      as [ids|err] eqn:Hu; simpl in H; [|discriminate].
    injection H as <-.
    apply filter_In in Ha as [Ha Hnot].
    assert (Hin : In e input_events).
    { apply filter_In. split; [exact He|]. rewrite Hv, andb_true_r, Z_mem_In, Hae.
      now apply in_map. }
    destruct (in_use_ids_spec executions input_events ids e Hu Hin) as [y [Hy Hact]].
    apply lookup_execution_some in Hy as [Hyin Hyid].
    assert (x = y).
    { apply (NoDup_map_inj exec_id store_executions); auto.
      - now apply (Hret (i :: is) executions Hg).
      - congruence. }
    subst y.
    destruct (is_execution_active x) eqn:Hxa; [|reflexivity].
    specialize (Hact eq_refl). rewrite Hae in Hact.
    apply Z_mem_In in Hact. rewrite Hact in Hnot. discriminate.
Qed.

End InUse.

(** Sample instances of the library predicates and the store, for the
    witnesses: input-type events, NEW/RUNNING executions, a store holding
    one running execution, and an extension hook that keeps everything. *)
Definition sample_is_valid_input_event (e : Event) : bool :=
  match event_type e with
  | INPUT | DECLARED_INPUT | INTERNAL_INPUT => true
  | _ => false
  end.

Definition sample_is_execution_active (x : Execution) : bool :=
  match last_known_state x with NEW | RUNNING => true | _ => false end.

Definition sample_store_executions : list Execution :=
  [mkExecution 7 RUNNING; mkExecution 8 COMPLETE].

Definition sample_get_executions_by_id (ids : list Z) : result (list Execution) :=
  Ok (filter (fun x => Z_mem (exec_id x) ids) sample_store_executions).

Definition sample_no_pipeline_groups (_ : KeepIfUsedInPipelineGroups)
    (l : list Artifact) : result (list Artifact) := Ok l.

Definition sample_events : list Event :=
  [mkEvent 1 7 INPUT; mkEvent 2 8 INPUT; mkEvent 4 7 OUTPUT].

Definition kmrp_policy (n : Z) : GarbageCollectionPolicy :=
  mkPolicy (KeepMostRecentlyPublished n) (mkKeepIfUsed []).

(** C1: whatever the policy and the pipeline-group hook select, no
    artifact of the final delete set of [_artifacts_to_garbage_collect] is
    the target of an input event whose execution (as held by the store) is
    active. *)
Theorem gc_candidates_not_in_use
    (is_valid_input_event : Event -> bool)
    (is_execution_active : Execution -> bool)
    (get_executions_by_id : list Z -> result (list Execution))
    (artifacts_not_in_use_in_pipeline_groups :
       KeepIfUsedInPipelineGroups -> list Artifact -> result (list Artifact))
    (store_executions : list Execution)
    (Hstore : store_returns_from get_executions_by_id store_executions)
    (artifacts : list Artifact) (events : list Event)
    (policy : GarbageCollectionPolicy) (res : list Artifact)
    (Hres : _artifacts_to_garbage_collect is_valid_input_event is_execution_active
              get_executions_by_id artifacts_not_in_use_in_pipeline_groups
              artifacts events policy = Ok res)
    (a : Artifact) (e : Event) (x : Execution)
    (Ha : In a res) (He : In e events) (Hae : artifact_id e = id a)
    (Hinput : is_valid_input_event e = true)
    (Hx : In x store_executions) (Hxe : exec_id x = execution_id e) :
  is_execution_active x = false.
Proof.
  unfold _artifacts_to_garbage_collect in Hres.
  destruct (_artifacts_to_garbage_collect_for_policy artifacts policy) as [r1|err];
    simpl in Hres; [|discriminate].
  destruct (artifacts_not_in_use_in_pipeline_groups
              (keep_if_used_in_pipeline_groups policy) r1) as [r2|err];
    simpl in Hres; [|discriminate].
  exact (not_in_use_sound is_valid_input_event is_execution_active
           get_executions_by_id store_executions r2 events res Hstore Hres
           a e x Ha He Hae Hinput Hx Hxe).
Qed.

(** [KeepMostRecentlyPublished(1)] alone would delete the artifacts at 10
    and 20; the one at 10 is read by the running execution 7, so only the
    ones at 20 remain, and
    the theorem applied to the artifact at 20 read by execution 8 shows 8 is
    not active. *)
Lemma gc_candidates_not_in_use_witness :
  _artifacts_to_garbage_collect sample_is_valid_input_event
    sample_is_execution_active sample_get_executions_by_id
    sample_no_pipeline_groups ts_sample sample_events (kmrp_policy 1)
  = Ok [art 2 "/out/2" 20; art 3 "/out/3" 20] /\
  sample_is_execution_active (mkExecution 8 COMPLETE) = false.
Proof.
  assert (Hres : _artifacts_to_garbage_collect sample_is_valid_input_event
    sample_is_execution_active sample_get_executions_by_id
    sample_no_pipeline_groups ts_sample sample_events (kmrp_policy 1)
    = Ok [art 2 "/out/2" 20; art 3 "/out/3" 20]) by reflexivity.
  assert (Hst : store_returns_from sample_get_executions_by_id sample_store_executions).
  { split.
    - simpl. repeat constructor; simpl; intuition discriminate.
    - intros ids execs H x Hx. unfold sample_get_executions_by_id in H.
      injection H as H. subst execs. simpl in Hx.
      repeat destruct (Z_mem _ ids); simpl in Hx; simpl; tauto. }
  split; [exact Hres|].
  exact (gc_candidates_not_in_use sample_is_valid_input_event
    sample_is_execution_active sample_get_executions_by_id
    sample_no_pipeline_groups sample_store_executions Hst ts_sample sample_events
    (kmrp_policy 1) _ Hres (art 2 "/out/2" 20) (mkEvent 2 8 INPUT)
    (mkExecution 8 COMPLETE) ltac:(simpl; auto) ltac:(simpl; auto) eq_refl eq_refl
    ltac:(simpl; auto) eq_refl).
Defined.

(** ** The node-level entry point *)

(** C2: [run_garbage_collection_for_node] raises exactly when the node's
    declared id differs from the caller's [node_uid.node_id], and then
    raises the wiring [ValueError]; every failure of the pass itself
    (configuration, missing execution, store or storage error) is caught. *)
Theorem run_gc_raises_only_on_node_mismatch
    (is_valid_input_event : Event -> bool)
    (is_execution_active : Execution -> bool)
    (get_live_output_artifacts_of_node_by_output_key :
       string -> string -> result (list (string * list (list Artifact))))
    (get_events_by_artifact_ids : list Z -> result (list Event))
    (get_executions_by_id : list Z -> result (list Execution))
    (put_artifacts_fails : list Artifact -> bool)
    (artifacts_not_in_use_in_pipeline_groups :
       KeepIfUsedInPipelineGroups -> list Artifact -> result (list Artifact))
    (node_uid : NodeUid) (node : Node) (w : World) :
  fst (run_garbage_collection_for_node is_valid_input_event is_execution_active
         get_live_output_artifacts_of_node_by_output_key
         get_events_by_artifact_ids get_executions_by_id put_artifacts_fails
         artifacts_not_in_use_in_pipeline_groups node_uid node w)
  = if String.eqb (node_info_id node) (node_id node_uid) then Ok tt
    else Err (ValueError "Node uids do not match for garbage collection").
Proof.
  unfold run_garbage_collection_for_node.
  destruct (String.eqb (node_info_id node) (node_id node_uid)); simpl;
    [|reflexivity].
  unfold try_except.
  match goal with |- context [match ?m w with _ => _ end] =>
    destruct (m w) as [[[]|e] w'] end; reflexivity.
Qed.

(** ** The purge step *)

Ltac unfold_purge :=
  unfold purge_one, _delete_artifact_uri, try_except, bind, ret, fileio_isdir,
    fileio_rmtree, fileio_remove, fileio_exists, log_op, set_fs; simpl.

(** [_delete_artifact_uri] case by case: an [isdir] check, then [rmtree] or
    [remove]; when that raises, an [exists] check decides. *)
Lemma delete_artifact_uri_eq (a : Artifact) (w : World) :
  _delete_artifact_uri a w =
    let u := uri a in
    let f := fs w in
    let op := if fs_isdir f u then OpRmTree u else OpRemove u in
    if removal_succeeds f u then
      (Ok true,
       mkWorld (fs_remove_paths (if fs_isdir f u then under u else String.eqb u) f)
               (fs_trace w ++ [OpIsDir u; op]) (store_writes w))
    else
      (Ok (negb (fs_exists f u)),
       mkWorld f (fs_trace w ++ [OpIsDir u; op; OpExists u]) (store_writes w)).
Proof.
  unfold_purge.
  destruct (fs_isdir (fs w) (uri a)); simpl;
    destruct (removal_succeeds (fs w) (uri a)); simpl;
    rewrite <- ?app_assoc; simpl; try reflexivity;
    destruct (fs_exists (fs w) (uri a)); reflexivity.
Qed.

(** Storage calls made while deleting an internal artifact's uri are all on
    that uri; nothing else of the world changes but the storage. *)
Lemma delete_artifact_uri_effects (a : Artifact) (w : World) :
  exists ok ops,
    _delete_artifact_uri a w =
      (Ok ok, mkWorld (fs (snd (_delete_artifact_uri a w)))
                      (fs_trace w ++ ops) (store_writes w)) /\
    Forall (fun o => op_path o = uri a) ops.
Proof.
  rewrite delete_artifact_uri_eq. simpl.
  destruct (fs_isdir (fs w) (uri a)), (removal_succeeds (fs w) (uri a)); simpl;
    eexists; eexists; (split; [reflexivity|]); repeat constructor.
Qed.

Lemma purge_one_effects (a : Artifact) (w : World) :
  exists a' ops,
    purge_one a w =
      (Ok a', mkWorld (fs (snd (purge_one a w))) (fs_trace w ++ ops) (store_writes w)) /\
    (a' = a \/ a' = set_state DELETED a) /\
    (ops = [] \/ (_is_artifact_external a = false /\
                  Forall (fun o => op_path o = uri a) ops)).
Proof.
  unfold purge_one.
  destruct (_is_artifact_external a) eqn:Hext.
  - exists (set_state DELETED a), []. unfold ret. simpl.
    rewrite app_nil_r. destruct w. auto.
  - destruct (delete_artifact_uri_effects a w) as [ok [ops [Heq Hops]]].
    unfold bind. rewrite Heq. simpl.
    exists (if ok then set_state DELETED a else a), ops.
    destruct ok; unfold ret; simpl; auto.
Qed.

Lemma purge_loop_effects (l : list Artifact) (w : World) :
  exists l' ops f,
    purge_loop l w = (Ok l', mkWorld f (fs_trace w ++ ops) (store_writes w)) /\
    Forall2 (fun a a' => a' = a \/ a' = set_state DELETED a) l l' /\
    (forall o, In o ops ->
       exists a, In a l /\ _is_artifact_external a = false /\ op_path o = uri a).
Proof.
  revert w. induction l as [|a l IH]; intros w.
  - exists [], [], (fs w). simpl. unfold ret. rewrite app_nil_r. destruct w.
    repeat split; [constructor|]. intros o [].
  - destruct (purge_one_effects a w) as [a' [ops1 [Hone [Ha' Hops1]]]].
    simpl. unfold bind at 1. rewrite Hone.
    set (w1 := mkWorld (fs (snd (purge_one a w))) (fs_trace w ++ ops1) (store_writes w)).
    destruct (IH w1) as [l' [ops2 [f [Hl [Hf Hops2]]]]].
    unfold bind at 1. rewrite Hl. unfold ret. simpl.
    exists (a' :: l'), (ops1 ++ ops2), f.
    split; [rewrite app_assoc; reflexivity|]. split; [now constructor|].
    intros o Ho. apply in_app_or in Ho as [Ho|Ho].
    + destruct Hops1 as [->|[Hext Hall]]; [contradiction|].
      exists a. split; [now left|]. split; [exact Hext|].
      rewrite Forall_forall in Hall. now apply Hall.
    + destruct (Hops2 o Ho) as [b [Hb Hrest]]. exists b. split; [now right|exact Hrest].
Qed.

(** C7: an external artifact is marked DELETED without any storage call
    (its processing leaves the world as it is), and every storage call of
    [garbage_collect_artifacts] is on the uri of an internal artifact of
    the batch. *)
Theorem purge_external_no_storage :
  (forall (a : Artifact) (w : World), _is_artifact_external a = true ->
     purge_one a w = (Ok (set_state DELETED a), w)) /\
  (forall (put_artifacts_fails : list Artifact -> bool) (artifacts : list Artifact)
          (w : World),
     exists ops,
       fs_trace (snd (garbage_collect_artifacts put_artifacts_fails artifacts w))
         = fs_trace w ++ ops /\
       forall o, In o ops ->
         exists a, In a artifacts /\ _is_artifact_external a = false /\
                   op_path o = uri a).
Proof.
  split.
  - intros a w Hext. unfold purge_one. now rewrite Hext.
  - intros put_fails artifacts w. unfold garbage_collect_artifacts.
    destruct artifacts as [|a0 rest].
    + exists []. unfold ret. simpl. rewrite app_nil_r. split; [reflexivity|].
      intros o [].
    + destruct (purge_loop_effects (a0 :: rest) w) as [l' [ops [f [Hl [_ Hops]]]]].
      exists ops. unfold bind. rewrite Hl. unfold put_artifacts.
      destruct (put_fails l'); simpl; auto.
Qed.

(** A storage where ["/out/2"] and ["/out/3"] exist as files and
    ["/out/2"] refuses removal. *)
Definition sample_fs : FileSystem :=
  mkFileSystem (fun p => String.eqb p "/out/2" || String.eqb p "/out/3")
               (fun _ => false) (fun p => String.eqb p "/out/2").

Definition sample_world : World := mkWorld sample_fs [] [].

Definition external_art : Artifact :=
  mkArtifact 5 "gs://shared/5" 40 [] [("is_external"%string, VInt 1)] LIVE.

Lemma purge_external_no_storage_witness :
  purge_one external_art sample_world
  = (Ok (set_state DELETED external_art), sample_world).
Proof.
  exact (proj1 purge_external_no_storage external_art sample_world eq_refl).
Defined.

(** C8: for an internal artifact, a successful removal, or a failed one
    where the uri no longer exists when checked, yields the artifact marked
    DELETED; a failed removal with the uri still there yields the artifact
    as it was, so a LIVE artifact stays LIVE.  (A failed [remove]/[rmtree]
    leaves the storage as it was, so the [exists] check sees [fs w].) *)
Theorem purge_internal_outcome (a : Artifact) (w : World)
    (Hint : _is_artifact_external a = false) :
  (removal_succeeds (fs w) (uri a) = true ->
     fst (purge_one a w) = Ok (set_state DELETED a)) /\
  (removal_succeeds (fs w) (uri a) = false -> fs_exists (fs w) (uri a) = false ->
     fst (purge_one a w) = Ok (set_state DELETED a)) /\
  (removal_succeeds (fs w) (uri a) = false -> fs_exists (fs w) (uri a) = true ->
     fst (purge_one a w) = Ok a).
Proof.
  unfold purge_one. rewrite Hint. unfold bind.
  rewrite delete_artifact_uri_eq. simpl.
  split; [|split].
  - intros Hr. rewrite Hr. reflexivity.
  - intros Hr He. rewrite Hr, He. reflexivity.
  - intros Hr He. rewrite Hr, He. reflexivity.
Qed.

Lemma purge_internal_outcome_witness :
  fst (purge_one (art 2 "/out/2" 20) sample_world) = Ok (art 2 "/out/2" 20) /\
  fst (purge_one (art 3 "/out/3" 20) sample_world)
    = Ok (set_state DELETED (art 3 "/out/3" 20)) /\
  fst (purge_one (art 1 "/out/1" 10) sample_world)
    = Ok (set_state DELETED (art 1 "/out/1" 10)).
Proof.
  split; [|split].
  - exact (proj2 (proj2 (purge_internal_outcome (art 2 "/out/2" 20)
             sample_world eq_refl)) eq_refl eq_refl).
  - exact (proj1 (purge_internal_outcome (art 3 "/out/3" 20) sample_world eq_refl)
             eq_refl).
  - exact (proj1 (proj2 (purge_internal_outcome (art 1 "/out/1" 10) sample_world
             eq_refl)) eq_refl eq_refl).
Defined.

Lemma purge_loop_cons (a : Artifact) (l : list Artifact) (w : World) :
  purge_loop (a :: l) w =
    match purge_one a w with
    | (Ok a', w1) =>
        match purge_loop l w1 with
        | (Ok l', w2) => (Ok (a' :: l'), w2)
        | (Err e, w2) => (Err e, w2)
        end
    | (Err e, w1) => (Err e, w1)
    end.
Proof.
  simpl. unfold bind, ret.
  destruct (purge_one a w) as [[a'|e] w1]; [|reflexivity].
  destruct (purge_loop l w1) as [[l'|e] w2]; reflexivity.
Qed.

Lemma purge_loop_nth (l : list Artifact) (w : World) (i : nat) (a : Artifact) :
  nth_error l i = Some a ->
  exists l' a',
    fst (purge_loop l w) = Ok l' /\ nth_error l' i = Some a' /\
    fst (purge_one a (snd (purge_loop (firstn i l) w))) = Ok a'.
Proof.
  revert w i. induction l as [|a0 l IH]; intros w i Hi; [now destruct i|].
  destruct (purge_one_effects a0 w) as [a0' [ops1 [Hone _]]].
  set (w1 := mkWorld (fs (snd (purge_one a0 w))) (fs_trace w ++ ops1) (store_writes w))
    in Hone.
  rewrite purge_loop_cons, Hone.
  destruct i as [|i]; simpl in Hi.
  - injection Hi as <-.
    destruct (purge_loop_effects l w1) as [l' [ops2 [f [Hl _]]]].
    rewrite Hl. exists (a0' :: l'), a0'. simpl.
    split; [reflexivity|]. split; [reflexivity|]. now rewrite Hone.
  - destruct (IH w1 i Hi) as [l' [a' [Hl [Hnth Hpa]]]].
    destruct (purge_loop l w1) as [[l''|e] w2] eqn:Hl2; simpl in Hl;
      [injection Hl as ->|discriminate].
    change (firstn (S i) (a0 :: l)) with (a0 :: firstn i l).
    rewrite purge_loop_cons, Hone.
    destruct (purge_loop_effects (firstn i l) w1) as [x [? [? [Hc _]]]].
    rewrite Hc. rewrite Hc in Hpa.
    exists (a0' :: l'), a'. simpl. auto.
Qed.

(** C10: [garbage_collect_artifacts] on a non-empty batch writes to the
    store at most once; when it completes, it has written exactly one batch,
    position by position the input artifacts with only [state] possibly set
    to DELETED (id, uri, creation time, properties and custom properties
    unchanged); an internal artifact whose removal failed while its uri
    still existed (in the storage as left by the artifacts before it) is
    written back unchanged in that batch.  When it raises, nothing is
    written. *)
Theorem purge_frame (put_artifacts_fails : list Artifact -> bool)
    (artifacts : list Artifact) (w : World) (Hne : artifacts <> []) :
  match garbage_collect_artifacts put_artifacts_fails artifacts w with
  | (Ok _, w') =>
      exists batch,
        store_writes w' = store_writes w ++ [batch] /\
        Forall2 (fun a a' =>
                   id a' = id a /\ uri a' = uri a /\
                   create_time_since_epoch a' = create_time_since_epoch a /\
                   properties a' = properties a /\
                   custom_properties a' = custom_properties a /\
                   (a' = a \/ state a' = DELETED)) artifacts batch /\
        (forall i a, nth_error artifacts i = Some a ->
           _is_artifact_external a = false ->
           let wi := snd (purge_loop (firstn i artifacts) w) in
           removal_succeeds (fs wi) (uri a) = false ->
           fs_exists (fs wi) (uri a) = true ->
           nth_error batch i = Some a)
  | (Err _, w') => store_writes w' = store_writes w
  end.
Proof.
  unfold garbage_collect_artifacts.
  destruct artifacts as [|a0 rest] eqn:Ea; [contradiction|]. rewrite <- Ea.
  destruct (purge_loop_effects artifacts w) as [l' [ops [f [Hl [Hf _]]]]].
  unfold bind. rewrite Ea. rewrite <- Ea. rewrite Hl. unfold put_artifacts.
  destruct (put_artifacts_fails l'); simpl; [reflexivity|].
  exists l'. split; [reflexivity|]. split.
  - eapply Forall2_impl; [|exact Hf].
    intros a a' [->| ->]; simpl; repeat split; auto.
  - intros i a Hi Hint Hr He.
    set (wi := snd (purge_loop (firstn i artifacts) w)) in *.
    destruct (purge_loop_nth artifacts w i a Hi) as [l'' [a' [Hl' [Hnth Hpa]]]].
    rewrite Hl in Hl'. simpl in Hl'. injection Hl' as <-.
    rewrite Hnth. f_equal.
    pose proof (proj2 (proj2 (purge_internal_outcome a wi Hint)) Hr He) as Ho.
    fold wi in Hpa. congruence.
Qed.

Definition sample_batch : list Artifact :=
  [art 2 "/out/2" 20; art 3 "/out/3" 20; external_art].

Lemma purge_frame_witness :
  sample_batch <> [] /\
  exists batch,
    store_writes (snd (garbage_collect_artifacts (fun _ => false) sample_batch
                         sample_world)) = [batch] /\
    nth_error batch 0 = Some (art 2 "/out/2" 20).
Proof.
  assert (Hne : sample_batch <> []) by discriminate.
  split; [exact Hne|].
  pose proof (purge_frame (fun _ => false) sample_batch sample_world Hne) as H.
  destruct (garbage_collect_artifacts (fun _ => false) sample_batch sample_world)
    as [r w'] eqn:E.
  destruct r as [u|e]; [|discriminate E].
  destruct H as [batch [Hw [_ Hi]]].
  exists batch. split; [exact Hw|].
  apply (Hi 0%nat); reflexivity.
Defined.

(** ** Configuration errors *)

Lemma check_value_type_some (ty : value_type) (pv : option value)
    (t : option value_type) :
  check_value_type (Some ty) pv = Ok t -> t = Some ty /\
    (forall v, pv = Some v -> type_of v = ty).
Proof.
  destruct pv as [v|]; simpl.
  - destruct (value_type_eqb ty (type_of v)) eqn:E; [|discriminate].
    intros H; injection H as <-.
    assert (Hty : type_of v = ty) by (destruct ty, v; simpl in *; congruence).
    rewrite Hty. split; [reflexivity|]. intros v' Hv. now injection Hv as <-.
  - intros H; injection H as <-. split; [reflexivity|discriminate].
Qed.

Lemma bucket_group_typed (name : string) (ty : value_type) (g : list Artifact)
    (b : Buckets) (t' : option value_type) (b' : Buckets) :
  bucket_group name (Some ty) g b = Ok (t', b') ->
  t' = Some ty /\
  forall a v, In a g -> _get_property_value a name = Some v -> type_of v = ty.
Proof.
  revert b. induction g as [|a g IH]; simpl; intros b H.
  - injection H as <- _. split; [reflexivity|tauto].
  - destruct (check_value_type (Some ty) (_get_property_value a name)) as [t|e]
      eqn:Hc; simpl in H; [|discriminate].
    destruct (check_value_type_some _ _ _ Hc) as [-> Hv].
    destruct (IH _ H) as [Ht Hall]. split; [exact Ht|].
    intros a' v [<-|Ha'] Hpv; [now apply Hv|now apply (Hall a')].
Qed.

Lemma bucket_group_final_type (name : string) (t : option value_type)
    (g : list Artifact) (b : Buckets) (t' : option value_type) (b' : Buckets) :
  bucket_group name t g b = Ok (t', b') ->
  forall a v, In a g -> _get_property_value a name = Some v ->
    t' = Some (type_of v).
Proof.
  revert t b. induction g as [|a g IH]; simpl; intros t b H a' v Ha' Hpv;
    [contradiction|].
  destruct (check_value_type t (_get_property_value a name)) as [t1|e]
    eqn:Hc; simpl in H; [|discriminate].
  destruct Ha' as [<-|Ha'].
  - rewrite Hpv in Hc. simpl in Hc.
    assert (t1 = Some (type_of v)).
    { destruct t as [ty|]; [|now injection Hc].
      destruct (value_type_eqb ty (type_of v)); [now injection Hc|discriminate]. }
    subst t1. now destruct (bucket_group_typed _ _ _ _ _ _ H).
  - exact (IH _ _ H a' v Ha' Hpv).
Qed.



Definition span_art (i : Z) (u : string) (t : Z) (v : value) : Artifact :=
  mkArtifact i u t [("span"%string, v)] [] LIVE.


Definition stats_arts : list Artifact :=
  [art 21 "/stats/21" 10; art 22 "/stats/22" 20].

Definition span_policy (k : Z) : GarbageCollectionPolicy :=
  mkPolicy (KeepPropertyValueGroups [mkGrouping "span" k KEEP_ORDER_LARGEST])
           (mkKeepIfUsed []).


Definition two_key_uid : NodeUid := mkNodeUid "pipeline" "Trainer".


Definition no_events (_ : list Z) : result (list Event) := Ok [].

Definition stats_world : World :=
  mkWorld (mkFileSystem (fun p => String.prefix "/stats/" p) (fun _ => false)
                        (fun _ => false)) [] [].





(** ** Property-value groups *)

(** Orders and equalities on property values. *)

Lemma value_eqb_eq (v w : value) : value_eqb v w = true <-> v = w.
Proof.
  destruct v as [a|a], w as [b|b]; simpl; split; intros H;
    try discriminate; try congruence.
  - apply Z.eqb_eq in H. now subst.
  - injection H as ->. apply Z.eqb_refl.
  - apply String.eqb_eq in H. now subst.
  - injection H as ->. apply String.eqb_refl.
Qed.

Lemma optval_eqb_eq (o1 o2 : option value) : optval_eqb o1 o2 = true <-> o1 = o2.
Proof.
  destruct o1 as [v|], o2 as [w|]; simpl; split; intros H; try discriminate;
    try reflexivity.
  - apply value_eqb_eq in H. now subst.
  - injection H as ->. now apply value_eqb_eq.
Qed.

Lemma optval_eqb_refl (o : option value) : optval_eqb o o = true.
Proof. now apply optval_eqb_eq. Qed.

Lemma string_compare_le_trans (s1 s2 s3 : string) :
  String.compare s1 s2 <> Gt -> String.compare s2 s3 <> Gt ->
  String.compare s1 s3 <> Gt.
Proof.
  revert s2 s3. induction s1 as [|c1 s1 IH]; intros [|c2 s2] [|c3 s3]; simpl;
    try congruence.
  unfold Ascii.compare.
  destruct (N.compare_spec (Ascii.N_of_ascii c1) (Ascii.N_of_ascii c2)) as [E12|L12|G12];
  destruct (N.compare_spec (Ascii.N_of_ascii c2) (Ascii.N_of_ascii c3)) as [E23|L23|G23];
    try congruence.
  - rewrite E12, E23, N.compare_refl. apply IH.
  - replace (N.compare (Ascii.N_of_ascii c1) (Ascii.N_of_ascii c3)) with Lt
      by (symmetry; apply N.compare_lt_iff; lia). congruence.
  - replace (N.compare (Ascii.N_of_ascii c1) (Ascii.N_of_ascii c3)) with Lt
      by (symmetry; apply N.compare_lt_iff; lia). congruence.
  - replace (N.compare (Ascii.N_of_ascii c1) (Ascii.N_of_ascii c3)) with Lt
      by (symmetry; apply N.compare_lt_iff; lia). congruence.
Qed.

Lemma value_leb_total (v w : value) : value_leb v w = false -> value_leb w v = true.
Proof.
  destruct v as [a|a], w as [b|b]; simpl; try discriminate; try reflexivity.
  - apply Zleb_total.
  - intros H. destruct (String.leb_total a b) as [H'|H']; congruence.
Qed.

Lemma value_leb_refl (v : value) : value_leb v v = true.
Proof.
  destruct (value_leb v v) eqn:E; [reflexivity|].
  pose proof (value_leb_total v v E). congruence.
Qed.

Lemma value_leb_trans (u v w : value) :
  value_leb u v = true -> value_leb v w = true -> value_leb u w = true.
Proof.
  destruct u as [a|a], v as [b|b], w as [c|c]; simpl; try discriminate;
    try reflexivity.
  - apply Zleb_trans.
  - unfold String.leb. intros H1 H2.
    destruct (String.compare a c) eqn:E; try reflexivity.
    exfalso. apply (string_compare_le_trans a b c);
      [destruct (String.compare a b); congruence
      |destruct (String.compare b c); congruence
      |exact E].
Qed.

Lemma value_leb_antisym (v w : value) :
  value_leb v w = true -> value_leb w v = true -> v = w.
Proof.
  destruct v as [a|a], w as [b|b]; simpl; try discriminate.
  - rewrite !Z.leb_le. intros. f_equal. lia.
  - intros H1 H2. f_equal. now apply String.leb_antisym.
Qed.

(** The distinct values. *)

Lemma vdedup_In (v : value) (l : list value) : In v (vdedup l) <-> In v l.
Proof.
  induction l as [|w l IH]; simpl; [tauto|].
  destruct (existsb (value_eqb w) l) eqn:E.
  - rewrite IH. split; [tauto|]. intros [<-|H]; [|exact H].
    apply existsb_exists in E. destruct E as [x [Hx Hwx]].
    apply value_eqb_eq in Hwx. now subst.
  - simpl. now rewrite IH.
Qed.

Lemma vdedup_NoDup (l : list value) : NoDup (vdedup l).
Proof.
  induction l as [|w l IH]; simpl; [constructor|].
  destruct (existsb (value_eqb w) l) eqn:E; [exact IH|].
  constructor; [|exact IH].
  rewrite vdedup_In. intros Hw.
  assert (existsb (value_eqb w) l = true) by
    (apply existsb_exists; exists w; split; [exact Hw|now apply value_eqb_eq]).
  congruence.
Qed.

Lemma distinct_values_In (p : string) (group : list Artifact) (v : value) :
  In v (distinct_values p group) <->
  exists a, In a group /\ _get_property_value a p = Some v.
Proof.
  unfold distinct_values. rewrite vdedup_In, in_flat_map.
  split; intros [a [Ha Hv]]; exists a; split; try exact Ha.
  - destruct (_get_property_value a p); simpl in Hv; [|contradiction].
    destruct Hv as [<-|[]]. reflexivity.
  - rewrite Hv. now left.
Qed.

(** The [defaultdict] built by one pass over a group. *)

Section Buckets.

Variable p : string.

Definition fill (g : list Artifact) (b : Buckets) : Buckets :=
  fold_left (fun b a => bucket_append (_get_property_value a p) a b) g b.

Lemma bucket_group_fill (t : option value_type) (g : list Artifact) (b : Buckets)
    (t' : option value_type) (b' : Buckets) :
  bucket_group p t g b = Ok (t', b') -> b' = fill g b.
Proof.
  unfold fill. revert t b. induction g as [|a g IH]; simpl; intros t b H.
  - now injection H as _ <-.
  - destruct (check_value_type t (_get_property_value a p)) as [t1|e]; simpl in H; [|discriminate].
    exact (IH _ _ H).
Qed.

Lemma bucket_get_append (k k' : option value) (a : Artifact) (b : Buckets) :
  bucket_get k (bucket_append k' a b) =
  if optval_eqb k' k then bucket_get k b ++ [a] else bucket_get k b.
Proof.
  induction b as [|[k0 l] b IH]; simpl.
  - destruct (optval_eqb k k') eqn:E1, (optval_eqb k' k) eqn:E2; try reflexivity.
    + apply optval_eqb_eq in E1. subst. now rewrite optval_eqb_refl in E2.
    + apply optval_eqb_eq in E2. subst. now rewrite optval_eqb_refl in E1.
  - destruct (optval_eqb k' k0) eqn:E0; simpl.
    + apply optval_eqb_eq in E0. subst k0.
      destruct (optval_eqb k k') eqn:E1, (optval_eqb k' k) eqn:E2; try reflexivity.
      * apply optval_eqb_eq in E1. subst. now rewrite optval_eqb_refl in E2.
      * apply optval_eqb_eq in E2. subst. now rewrite optval_eqb_refl in E1.
    + rewrite IH. destruct (optval_eqb k k0) eqn:E1; [|reflexivity].
      apply optval_eqb_eq in E1. subst k0.
      now rewrite E0.
Qed.

Lemma bucket_get_fill (k : option value) (g : list Artifact) (b : Buckets) :
  bucket_get k (fill g b) =
  bucket_get k b ++ filter (fun a => optval_eqb (_get_property_value a p) k) g.
Proof.
  unfold fill. revert b. induction g as [|a g IH]; intros b; simpl.
  - now rewrite app_nil_r.
  - rewrite IH, bucket_get_append.
    destruct (optval_eqb (_get_property_value a p) k); [|reflexivity].
    now rewrite <- app_assoc.
Qed.

Lemma bucket_keys_append (k k' : option value) (a : Artifact) (b : Buckets) :
  In k (map fst (bucket_append k' a b)) <-> k = k' \/ In k (map fst b).
Proof.
  induction b as [|[k0 l] b IH]; simpl;
    [split; intros [->|[]]; now left|].
  destruct (optval_eqb k' k0) eqn:E; simpl.
  - apply optval_eqb_eq in E. subst.
    split; [intros [H|H]; [left; congruence|right; right; exact H]|].
    intros [H|[H|H]]; [left; congruence|left; exact H|right; exact H].
  - rewrite IH. tauto.
Qed.

Lemma bucket_keys_append_NoDup (k' : option value) (a : Artifact) (b : Buckets) :
  NoDup (map fst b) -> NoDup (map fst (bucket_append k' a b)).
Proof.
  induction b as [|[k0 l] b IH]; simpl; intros Hnd.
  - repeat constructor. simpl. tauto.
  - inversion Hnd as [|? ? Hnin Hnd']; subst.
    destruct (optval_eqb k' k0) eqn:E; simpl; [exact Hnd|].
    constructor; [|now apply IH].
    rewrite bucket_keys_append. intros [->|H]; [|contradiction].
    now rewrite optval_eqb_refl in E.
Qed.

Lemma fill_keys (k : option value) (g : list Artifact) (b : Buckets) :
  In k (map fst (fill g b)) <-> In k (map fst b) \/ exists a, In a g /\ _get_property_value a p = k.
Proof.
  unfold fill. revert b. induction g as [|a g IH]; intros b; simpl.
  - split; [tauto|]. intros [H|[a [[] _]]]. exact H.
  - rewrite IH, bucket_keys_append. split.
    + intros [[->|H]|[x [Hx <-]]]; eauto.
    + intros [H|[x [[<-|Hx] <-]]]; eauto.
Qed.

Lemma fill_NoDup (g : list Artifact) (b : Buckets) :
  NoDup (map fst b) -> NoDup (map fst (fill g b)).
Proof.
  unfold fill. revert b. induction g as [|a g IH]; intros b Hb; simpl; [exact Hb|].
  apply IH. now apply bucket_keys_append_NoDup.
Qed.

Lemma bucket_get_In (b : Buckets) (k : option value) (l : list Artifact) :
  NoDup (map fst b) -> In (k, l) b -> bucket_get k b = l.
Proof.
  induction b as [|[k0 l0] b IH]; simpl; [tauto|].
  intros Hnd [E|H]; inversion Hnd as [|? ? Hnin Hnd']; subst.
  - injection E as -> ->. now rewrite optval_eqb_refl.
  - destruct (optval_eqb k k0) eqn:E.
    + apply optval_eqb_eq in E. subst. exfalso. apply Hnin.
      now apply (in_map fst) in H.
    + now apply IH.
Qed.

Lemma nonnull_keys_In (b : Buckets) (v : value) :
  In v (nonnull_keys b) <-> In (Some v) (map fst b).
Proof.
  unfold nonnull_keys. rewrite in_flat_map, in_map_iff. split.
  - intros [[k l] [H Hv]]. simpl in Hv. destruct k as [w|]; [|contradiction].
    destruct Hv as [<-|[]]. now exists (Some w, l).
  - intros [[k l] [Hk H]]. simpl in Hk. subst k. exists (Some v, l).
    split; [exact H|now left].
Qed.

Lemma nonnull_keys_NoDup (b : Buckets) :
  NoDup (map fst b) -> NoDup (nonnull_keys b).
Proof.
  induction b as [|[k l] b IH]; simpl; intros Hnd; [constructor|].
  inversion Hnd as [|? ? Hnin Hnd']; subst.
  change (NoDup ((match k with Some v => [v] | None => [] end) ++ nonnull_keys b)).
  destruct k as [v|]; simpl; [|now apply IH].
  constructor; [|now apply IH]. now rewrite nonnull_keys_In.
Qed.

End Buckets.

Lemma bucket_has_In (k : option value) (b : Buckets) :
  bucket_has k b = true <-> In k (map fst b).
Proof.
  induction b as [|[k0 l] b IH]; simpl; [split; [discriminate|tauto]|].
  rewrite orb_true_iff, IH, optval_eqb_eq.
  split; (intros [H|H]; [left; congruence|right; exact H]).
Qed.

Lemma filter_length_lt {A} (f : A -> bool) (l : list A) (x : A) :
  In x l -> f x = false -> (List.length (filter f l) < List.length l)%nat.
Proof.
  induction l as [|y l IH]; simpl; [tauto|].
  intros [<-|Hx] Hf.
  - rewrite Hf. pose proof (filter_length_le f l) as H. lia.
  - specialize (IH Hx Hf). destruct (f y); simpl; lia.
Qed.

Lemma filter_none {A} (f : A -> bool) (l : list A) :
  (forall x, In x l -> f x = false) -> filter f l = [].
Proof.
  induction l as [|y l IH]; simpl; intros H; [reflexivity|].
  rewrite (H y (or_introl eq_refl)). apply IH. intros x Hx. apply H. now right.
Qed.

Lemma In_skipn {A} (j : nat) (l : list A) (x : A) : In x (skipn j l) -> In x l.
Proof. intros H. rewrite <- (firstn_skipn j l). apply in_or_app. now right. Qed.

(** Positions in a strictly sorted list. *)

Section SortedDistinct.

Context {A : Type} (le : A -> A -> bool).
Hypothesis le_total : forall x y, le x y = false -> le y x = true.
Hypothesis le_antisym : forall x y, le x y = true -> le y x = true -> x = y.

Lemma le_refl_of_total (x : A) : le x x = true.
Proof.
  destruct (le x x) eqn:E; [reflexivity|]. pose proof (le_total x x E). congruence.
Qed.

(** [v] lies in the suffix from index [j] iff fewer than [len - j] entries
    exceed it. *)
Lemma sorted_skipn_In (S : list A) (v : A) (j : nat) :
  StronglySorted (leP le) S -> NoDup S -> In v S ->
  (In v (skipn j S) <->
   (List.length (filter (fun w => negb (le w v)) S) < List.length S - j)%nat).
Proof.
  revert j. induction S as [|x S IH]; intros j Hs Hnd Hv; [destruct Hv|].
  inversion Hs as [|? ? Hs' Hall]; subst.
  inversion Hnd as [|? ? Hnin Hnd']; subst.
  rewrite Forall_forall in Hall. unfold leP in Hall.
  destruct Hv as [<-|Hv].
  - assert (Hc : filter (fun w => negb (le w x)) (x :: S) = S).
    { simpl. rewrite le_refl_of_total. simpl.
      apply forallb_filter_id, forallb_forall. intros w Hw.
      destruct (le w x) eqn:E; [|reflexivity].
      exfalso. apply Hnin. rewrite (le_antisym x w (Hall w Hw) E). exact Hw. }
    rewrite Hc. destruct j as [|j]; simpl.
    + split; [lia|auto].
    + split; [|lia]. intros H. exfalso. apply Hnin. exact (In_skipn _ _ _ H).
  - assert (Hxv : le x v = true) by (apply Hall, Hv).
    assert (Hc : filter (fun w => negb (le w v)) (x :: S)
                 = filter (fun w => negb (le w v)) S) by (simpl; now rewrite Hxv).
    rewrite Hc. destruct j as [|j]; simpl.
    + pose proof (proj1 (IH 0%nat Hs' Hnd' Hv) (Hv)) as H. simpl in H.
      split; [lia|auto].
    + exact (IH j Hs' Hnd' Hv).
Qed.

(** [v] lies in the prefix of length [j] iff fewer than [j] entries are
    below it. *)
Lemma sorted_firstn_In (S : list A) (v : A) (j : nat) :
  StronglySorted (leP le) S -> NoDup S -> In v S ->
  (In v (firstn j S) <->
   (List.length (filter (fun w => negb (le v w)) S) < j)%nat).
Proof.
  revert j. induction S as [|x S IH]; intros j Hs Hnd Hv; [destruct Hv|].
  inversion Hs as [|? ? Hs' Hall]; subst.
  inversion Hnd as [|? ? Hnin Hnd']; subst.
  rewrite Forall_forall in Hall. unfold leP in Hall.
  destruct j as [|j]; simpl; [split; [intros []|lia]|].
  destruct Hv as [<-|Hv].
  - rewrite le_refl_of_total. simpl.
    rewrite filter_none; [simpl; split; [lia|auto]|].
    intros w Hw. now rewrite (Hall w Hw).
  - assert (Hvx : le v x = false).
    { destruct (le v x) eqn:E; [|reflexivity].
      exfalso. apply Hnin. rewrite (le_antisym x v (Hall v Hv) E). exact Hv. }
    rewrite Hvx. simpl. rewrite (IH j Hs' Hnd' Hv).
    split; [intros [<-|H]; [contradiction|lia]|].
    intros H. right. lia.
Qed.

End SortedDistinct.

(** The groups [select_groups] returns, as a membership test. *)

Lemma select_tail (p : string) (group : list Artifact) (X : list value) (c : bool)
    (n : list Artifact) (a : Artifact) :
  In n (map (fun v => bucket_get (Some v) (fill p group [])) X ++
        (if c then [bucket_get None (fill p group [])] else [])) /\ In a n <->
  In a group /\
  n = filter (fun x => optval_eqb (_get_property_value x p)
                         (_get_property_value a p)) group /\
  match _get_property_value a p with Some v => In v X | None => c = true end.
Proof.
  assert (Hget : forall k, bucket_get k (fill p group [])
     = filter (fun x => optval_eqb (_get_property_value x p) k) group)
    by (intros k; now rewrite bucket_get_fill).
  rewrite in_app_iff, in_map_iff. split.
  - intros [[[v [<- Hv]]|Hn] Ha].
    + rewrite Hget, filter_In, optval_eqb_eq in Ha. destruct Ha as [Ha Hpa].
      split; [exact Ha|]. rewrite Hpa. split; [apply Hget|exact Hv].
    + destruct c; [|destruct Hn]. destruct Hn as [<-|[]].
      rewrite Hget, filter_In, optval_eqb_eq in Ha. destruct Ha as [Ha Hpa].
      split; [exact Ha|]. rewrite Hpa. split; [apply Hget|reflexivity].
  - intros [Ha [-> Hm]]. split.
    + destruct (_get_property_value a p) as [v|] eqn:Hpa.
      * left. exists v. split; [apply Hget|exact Hm].
      * right. subst c. left. apply Hget.
    + apply filter_In. split; [exact Ha|apply optval_eqb_refl].
Qed.

Lemma select_groups_spec (g : Grouping) (group : list Artifact)
    (t t' : option value_type) (b : Buckets) (ns : list (list Artifact)) :
  bucket_group (property_name g) t group [] = Ok (t', b) ->
  select_groups g b = Ok ns ->
  forall n a, (In n ns /\ In a n) <->
    (In a group /\
     retained_by g group (_get_property_value a (property_name g)) = true /\
     n = filter (fun x => optval_eqb (_get_property_value x (property_name g))
                            (_get_property_value a (property_name g))) group).
Proof.
  intros Hbg Hsel n a.
  set (p := property_name g) in *.
  apply bucket_group_fill in Hbg. subst b.
  assert (Hget : forall k, bucket_get k (fill p group [])
     = filter (fun x => optval_eqb (_get_property_value x p) k) group)
    by (intros k; now rewrite bucket_get_fill).
  assert (Hnd : NoDup (map fst (fill p group []))) by (apply fill_NoDup; constructor).
  assert (Hkeys : forall k, In k (map fst (fill p group [])) <->
                  exists x, In x group /\ _get_property_value x p = k)
    by (intros k; rewrite fill_keys; simpl; tauto).
  unfold select_groups in Hsel. unfold retained_by. fold p.
  destruct (keep_num g <=? 0) eqn:Hk.
  - injection Hsel as <-. rewrite in_map_iff. split.
    + intros [[[k l] [<- Hin]] Ha]. simpl in Ha |- *.
      rewrite <- (bucket_get_In _ _ _ Hnd Hin), Hget, filter_In, optval_eqb_eq in Ha.
      destruct Ha as [Ha Hpa]. split; [exact Ha|split; [reflexivity|]].
      rewrite <- (bucket_get_In _ _ _ Hnd Hin), Hget, Hpa. reflexivity.
    + intros [Ha [_ ->]]. split.
      * assert (Hk' : In (_get_property_value a p) (map fst (fill p group [])))
          by (apply Hkeys; eauto).
        apply in_map_iff in Hk'. destruct Hk' as [[k l] [Hkl Hin]].
        simpl in Hkl. subst k. exists (_get_property_value a p, l).
        split; [|exact Hin]. simpl.
        rewrite <- (bucket_get_In _ _ _ Hnd Hin). apply Hget.
      * apply filter_In. split; [exact Ha|apply optval_eqb_refl].
  - set (b := fill p group []) in *.
    set (S := sorted_by value_leb (nonnull_keys b)) in *.
    assert (HSperm : Permutation S (nonnull_keys b)) by apply sorted_by_perm.
    assert (HSnd : NoDup S).
    { apply (Permutation_NoDup (Permutation_sym HSperm)).
      now apply nonnull_keys_NoDup. }
    assert (HSs : StronglySorted (leP value_leb) S).
    { apply sorted_by_strongly_sorted; [apply value_leb_total|apply value_leb_trans]. }
    assert (HSin : forall v, In v S <->
                   exists x, In x group /\ _get_property_value x p = Some v).
    { intros v. rewrite <- Hkeys, <- nonnull_keys_In. split; intros H.
      - exact (Permutation_in _ HSperm H).
      - exact (Permutation_in _ (Permutation_sym HSperm) H). }
    assert (HSV : Permutation S (distinct_values p group)).
    { apply NoDup_Permutation; [exact HSnd|apply vdedup_NoDup|].
      intros v. now rewrite HSin, distinct_values_In. }
    assert (Hcount : forall f, List.length (filter f (distinct_values p group))
                               = List.length (filter f S))
      by (intros f; symmetry; now apply filter_length_perm).
    assert (HlenV : List.length (distinct_values p group) = List.length S)
      by (symmetry; now apply Permutation_length).
    assert (Hhas : forall x, In x group -> _get_property_value x p = None ->
                   bucket_has None b = true).
    { intros x Hx Hpx. apply bucket_has_In, Hkeys. eauto. }
    assert (HK : (0 < Z.to_nat (keep_num g))%nat) by (apply Z.leb_gt in Hk; lia).
    assert (HK' : Z.of_nat (Z.to_nat (keep_num g)) = keep_num g)
      by (apply Z.leb_gt in Hk; apply Z2Nat.id; lia).
    cbv zeta.
    destruct (keep_order g) as [| | |o] eqn:Ho; cbn [rbind] in Hsel;
      [| | |discriminate].
    1,2: set (X := py_last (keep_num g) S) in *.
    3: set (X := firstn (Z.to_nat (keep_num g)) S) in *.
    all: set (c := bucket_has None b && (Z.of_nat (List.length X) <? keep_num g)) in *.
    all: assert (Hns : ns = map (fun v => bucket_get (Some v) b) X ++
                            (if c then [bucket_get None b] else []))
           by (destruct c; injection Hsel as <-; [reflexivity|now rewrite app_nil_r]).
    all: rewrite Hns; unfold b; rewrite select_tail; fold b.
    all: split; [intros [Ha [Hn Hm]]; split; [exact Ha|split; [|exact Hn]]
                |intros [Ha [Hm Hn]]; split; [exact Ha|split; [exact Hn|]]].
    all: destruct (_get_property_value a p) as [v|] eqn:Hpa.
    all: try (assert (HvS : In v S) by (apply HSin; eauto)).
    all: try (unfold c in *; rewrite (Hhas a Ha Hpa) in *; simpl in *).
    all: try rewrite HlenV in *.
    all: unfold X, py_last in *.
    all: try rewrite length_skipn in *.
    all: try rewrite length_firstn in *.
    all: unfold value_ltb in *.
    all: try rewrite Hcount in *.
    all: try rewrite (sorted_skipn_In value_leb value_leb_total value_leb_antisym
                        S v _ HSs HSnd HvS) in *.
    all: try rewrite (sorted_firstn_In value_leb value_leb_total value_leb_antisym
                        S v _ HSs HSnd HvS) in *.
    all: rewrite ?Z.ltb_lt in *.
    all: try (pose proof (filter_length_lt (fun w => negb (value_leb w v)) S v HvS
                 ltac:(cbn beta; now rewrite value_leb_refl))).
    all: lia.
Qed.

(** One grouping over all the artifact groups. *)

Lemma regroup_spec (g : Grouping) (t : option value_type)
    (groups ns : list (list Artifact)) :
  regroup g t groups = Ok ns ->
  forall n a, (In n ns /\ In a n) <->
    exists group, In group groups /\ In a group /\
      retained_by g group (_get_property_value a (property_name g)) = true /\
      n = filter (fun x => optval_eqb (_get_property_value x (property_name g))
                             (_get_property_value a (property_name g))) group.
Proof.
  revert t ns. induction groups as [|group groups IH]; simpl; intros t ns H n a.
  - injection H as <-. split; [intros [[] _]|intros [? [[] _]]].
  - destruct (bucket_group (property_name g) t group []) as [[t1 b]|e] eqn:Hbg;
      simpl in H; [|discriminate].
    destruct (select_groups g b) as [next|e] eqn:Hs; simpl in H; [|discriminate].
    destruct (regroup g t1 groups) as [rest|e] eqn:Hr; simpl in H; [|discriminate].
    injection H as <-. rewrite in_app_iff.
    pose proof (select_groups_spec g group t t1 b next Hbg Hs n a) as Hsp.
    pose proof (IH t1 rest Hr n a) as Hrest.
    split.
    + intros [[Hn|Hn] Ha].
      * exists group. split; [now left|]. apply Hsp. now split.
      * destruct (proj1 Hrest (conj Hn Ha)) as [gr [Hg Hgr]].
        exists gr. split; [now right|exact Hgr].
    + intros [gr [[<-|Hg] Hgr]].
      * destruct (proj2 Hsp Hgr) as [Hn Ha]. split; [now left|exact Ha].
      * destruct (proj2 Hrest (ex_intro _ gr (conj Hg Hgr))) as [Hn Ha].
        split; [now right|exact Ha].
Qed.

(** The groups left after all the groupings, as a membership test. *)
Lemma apply_groupings_spec (gs : list Grouping) (groups fs : list (list Artifact)) :
  apply_groupings gs groups = Ok fs ->
  forall a, In a (List.concat fs) <->
    exists group, In group groups /\ In a group /\ kept_by_groupings gs group a = true.
Proof.
  revert groups. induction gs as [|g gs IH]; simpl; intros groups H a.
  - injection H as <-. rewrite in_concat.
    split; intros [x [Hx Ha]]; exists x; tauto.
  - destruct (regroup g None groups) as [next|e] eqn:Hr; simpl in H; [|discriminate].
    rewrite (IH next H a). split.
    + intros [n [Hn [Ha Hk]]].
      destruct (proj1 (regroup_spec _ _ _ _ Hr n a) (conj Hn Ha))
        as [gr [Hg [Hag [Hret ->]]]].
      exists gr. split; [exact Hg|split; [exact Hag|]]. rewrite Hret. exact Hk.
    + intros [gr [Hg [Hag Hk]]]. apply andb_true_iff in Hk. destruct Hk as [Hret Hk].
      destruct (proj2 (regroup_spec _ _ _ _ Hr _ a)
                  (ex_intro _ gr (conj Hg (conj Hag (conj Hret eq_refl)))))
        as [Hn Ha].
      eexists. split; [exact Hn|split; [exact Ha|exact Hk]].
Qed.

Lemma apply_groupings_incl (gs : list Grouping) (groups fs : list (list Artifact)) :
  apply_groupings gs groups = Ok fs -> incl (List.concat fs) (List.concat groups).
Proof.
  intros H a Ha. apply (apply_groupings_spec gs groups fs H) in Ha.
  destruct Ha as [gr [Hg [Ha _]]]. apply in_concat. eauto.
Qed.

Lemma regroup_incl (g : Grouping) (t : option value_type)
    (groups ns : list (list Artifact)) :
  regroup g t groups = Ok ns -> incl (List.concat ns) (List.concat groups).
Proof.
  intros H a Ha. apply in_concat in Ha. destruct Ha as [n [Hn Ha]].
  destruct (proj1 (regroup_spec g t groups ns H n a) (conj Hn Ha))
    as [gr [Hg [Hag _]]].
  apply in_concat. eauto.
Qed.

Lemma apply_groupings_nil (gs : list Grouping) : apply_groupings gs [] = Ok [].
Proof. induction gs as [|g gs IH]; simpl; [reflexivity|exact IH]. Qed.

(** When the groupings succeed: homogeneous value types and known orders. *)

Definition homogeneous (p : string) (l : list Artifact) : Prop :=
  forall a1 a2 v1 v2, In a1 l -> In a2 l ->
    _get_property_value a1 p = Some v1 -> _get_property_value a2 p = Some v2 ->
    type_of v1 = type_of v2.

Definition compatible (t : option value_type) (p : string) (l : list Artifact)
  : Prop :=
  forall a v, In a l -> _get_property_value a p = Some v ->
    t = None \/ t = Some (type_of v).

Definition order_ok (g : Grouping) : bool :=
  (keep_num g <=? 0) ||
  match keep_order g with KEEP_ORDER_OTHER _ => false | _ => true end.

Lemma homogeneous_incl (p : string) (l l' : list Artifact) :
  incl l' l -> homogeneous p l -> homogeneous p l'.
Proof. intros Hi H a1 a2 v1 v2 H1 H2. apply H; apply Hi; assumption. Qed.

Lemma compatible_incl (t : option value_type) (p : string) (l l' : list Artifact) :
  incl l' l -> compatible t p l -> compatible t p l'.
Proof. intros Hi H a v Ha. apply H, Hi, Ha. Qed.

Lemma bucket_group_ok (p : string) (t : option value_type) (group : list Artifact)
    (b : Buckets) :
  homogeneous p group -> compatible t p group ->
  exists t', bucket_group p t group b = Ok (t', fill p group b) /\
    (t' = t \/ exists a v, In a group /\ _get_property_value a p = Some v /\
                           t' = Some (type_of v)).
Proof.
  unfold fill. revert t b. induction group as [|a group IH]; intros t b Hh Hc.
  - exists t. split; [reflexivity|now left].
  - cbn [bucket_group fold_left].
    assert (Hh' : homogeneous p group)
      by (apply (homogeneous_incl p (a :: group)); [intros x; now right|exact Hh]).
    destruct (_get_property_value a p) as [v|] eqn:Hpa.
    + assert (Hck : check_value_type t (Some v) = Ok (Some (type_of v))).
      { destruct (Hc a v (or_introl eq_refl) Hpa) as [->| ->]; simpl; [reflexivity|].
        now destruct (type_of v). }
      rewrite Hck. cbn [rbind].
      destruct (IH (Some (type_of v)) (bucket_append (Some v) a b) Hh')
        as [t' [Heq Ht']].
      { intros a' v' Ha' Hpa'. right. f_equal.
        apply (Hh a a' v v'); [now left|now right|exact Hpa|exact Hpa']. }
      exists t'. split; [exact Heq|]. right.
      destruct Ht' as [->|[a' [v' [Ha' [Hpa' ->]]]]].
      * exists a, v. split; [now left|auto].
      * exists a', v'. split; [now right|auto].
    + destruct (IH t (bucket_append None a b) Hh') as [t' [Heq Ht']].
      { apply (compatible_incl t p (a :: group)); [intros x; now right|exact Hc]. }
      exists t'. split; [exact Heq|].
      destruct Ht' as [->|[a' [v' [Ha' [Hpa' ->]]]]]; [now left|].
      right. exists a', v'. split; [now right|auto].
Qed.

Lemma select_groups_ok (g : Grouping) (b : Buckets) :
  order_ok g = true -> exists ns, select_groups g b = Ok ns.
Proof.
  unfold order_ok, select_groups. destruct (keep_num g <=? 0); simpl; [eauto|].
  intros Ho. destruct (keep_order g); simpl; try discriminate;
  match goal with |- exists _, (if ?c then _ else _) = _ => destruct c end; eauto.
Qed.

Lemma select_groups_order (g : Grouping) (b : Buckets) (ns : list (list Artifact)) :
  select_groups g b = Ok ns -> order_ok g = true.
Proof.
  unfold order_ok, select_groups. destruct (keep_num g <=? 0); simpl; [reflexivity|].
  destruct (keep_order g); simpl; try reflexivity. discriminate.
Qed.

Lemma select_groups_empty (g : Grouping) : order_ok g = true -> select_groups g [] = Ok [].
Proof.
  unfold order_ok, select_groups. destruct (keep_num g <=? 0); simpl; [reflexivity|].
  intros Ho. destruct (keep_order g); simpl; try discriminate;
    unfold py_last; rewrite ?firstn_nil, ?skipn_nil; reflexivity.
Qed.

Lemma regroup_ok (g : Grouping) (t : option value_type) (groups : list (list Artifact)) :
  homogeneous (property_name g) (List.concat groups) ->
  compatible t (property_name g) (List.concat groups) ->
  order_ok g = true ->
  exists ns, regroup g t groups = Ok ns.
Proof.
  revert t. induction groups as [|gr groups IH]; simpl; intros t Hh Hc Ho; [eauto|].
  assert (Hi1 : incl gr (gr ++ List.concat groups)) by (intros x Hx; apply in_or_app; now left).
  assert (Hi2 : incl (List.concat groups) (gr ++ List.concat groups))
    by (intros x Hx; apply in_or_app; now right).
  destruct (bucket_group_ok (property_name g) t gr []
              (homogeneous_incl _ _ _ Hi1 Hh) (compatible_incl _ _ _ _ Hi1 Hc))
    as [t1 [Hbg Ht1]].
  rewrite Hbg. simpl.
  destruct (select_groups_ok g (fill (property_name g) gr []) Ho) as [ns1 Hs].
  rewrite Hs. simpl.
  destruct (IH t1) as [ns2 Hr].
  - exact (homogeneous_incl _ _ _ Hi2 Hh).
  - destruct Ht1 as [->|[a [v [Ha [Hpa ->]]]]].
    + exact (compatible_incl _ _ _ _ Hi2 Hc).
    + intros a' v' Ha' Hpa'. right. f_equal.
      apply (Hh a a' v v'); [now apply Hi1|now apply Hi2|exact Hpa|exact Hpa'].
  - exact Ho.
  - rewrite Hr. simpl. eauto.
Qed.

Lemma regroup_homog (g : Grouping) (t : option value_type)
    (groups ns : list (list Artifact)) :
  regroup g t groups = Ok ns ->
  homogeneous (property_name g) (List.concat groups) /\
  compatible t (property_name g) (List.concat groups).
Proof.
  revert t ns. induction groups as [|gr groups IH]; simpl; intros t ns H.
  - split; [intros ? ? ? ? []|intros ? ? []].
  - destruct (bucket_group (property_name g) t gr []) as [[t1 b]|e] eqn:Hbg;
      simpl in H; [|discriminate].
    destruct (select_groups g b) as [next|e] eqn:Hs; simpl in H; [|discriminate].
    destruct (regroup g t1 groups) as [rest|e] eqn:Hr; simpl in H; [|discriminate].
    destruct (IH t1 rest Hr) as [Hh Hc].
    pose proof (bucket_group_final_type _ _ _ _ _ _ Hbg) as Hfin.
    split.
    + intros a1 a2 v1 v2 H1 H2 Hp1 Hp2. apply in_app_iff in H1, H2.
      destruct H1 as [H1|H1], H2 as [H2|H2].
      * pose proof (Hfin a1 v1 H1 Hp1). pose proof (Hfin a2 v2 H2 Hp2). congruence.
      * pose proof (Hfin a1 v1 H1 Hp1).
        destruct (Hc a2 v2 H2 Hp2); congruence.
      * pose proof (Hfin a2 v2 H2 Hp2).
        destruct (Hc a1 v1 H1 Hp1); congruence.
      * exact (Hh a1 a2 v1 v2 H1 H2 Hp1 Hp2).
    + intros a v Ha Hpa. apply in_app_iff in Ha.
      destruct t as [ty|]; [|now left]. right.
      destruct (bucket_group_typed _ _ _ _ _ _ Hbg) as [Ht1 Hall].
      destruct Ha as [Ha|Ha]; [now rewrite (Hall a v Ha Hpa)|].
      destruct (Hc a v Ha Hpa); congruence.
Qed.

Lemma apply_groupings_ok (gs : list Grouping) (groups : list (list Artifact)) :
  (forall g, In g gs ->
     homogeneous (property_name g) (List.concat groups) /\ order_ok g = true) ->
  exists fs, apply_groupings gs groups = Ok fs.
Proof.
  revert groups. induction gs as [|g gs IH]; simpl; intros groups H; [eauto|].
  destruct (H g (or_introl eq_refl)) as [Hh Ho].
  destruct (regroup_ok g None groups Hh ltac:(intros ? ? _ _; now left) Ho) as [ns Hr].
  rewrite Hr. simpl. apply IH. intros g' Hg'.
  destruct (H g' (or_intror Hg')) as [Hh' Ho'].
  split; [|exact Ho'].
  exact (homogeneous_incl _ _ _ (regroup_incl _ _ _ _ Hr) Hh').
Qed.

Lemma apply_groupings_homog (gs : list Grouping) (groups fs : list (list Artifact)) :
  apply_groupings gs groups = Ok fs ->
  forall g, In g gs -> homogeneous (property_name g) (List.concat fs).
Proof.
  revert groups. induction gs as [|g0 gs IH]; simpl; intros groups H g Hg;
    [contradiction|].
  destruct (regroup g0 None groups) as [ns|e] eqn:Hr; simpl in H; [|discriminate].
  destruct Hg as [<-|Hg]; [|exact (IH ns H g Hg)].
  apply (homogeneous_incl _ (List.concat groups)).
  - intros a Ha. apply (regroup_incl _ _ _ _ Hr), (apply_groupings_incl _ _ _ H), Ha.
  - exact (proj1 (regroup_homog _ _ _ _ Hr)).
Qed.

Lemma apply_groupings_order (gs : list Grouping) (groups fs : list (list Artifact)) :
  apply_groupings gs groups = Ok fs -> List.concat fs <> [] ->
  forall g, In g gs -> order_ok g = true.
Proof.
  revert groups. induction gs as [|g0 gs IH]; simpl; intros groups H Hne g Hg;
    [contradiction|].
  destruct (regroup g0 None groups) as [ns|e] eqn:Hr; simpl in H; [|discriminate].
  destruct Hg as [<-|Hg]; [|exact (IH ns H Hne g Hg)].
  destruct groups as [|gr groups].
  - simpl in Hr. injection Hr as <-. rewrite apply_groupings_nil in H.
    injection H as <-. contradiction.
  - simpl in Hr.
    destruct (bucket_group (property_name g0) None gr []) as [[t1 b]|e];
      simpl in Hr; [|discriminate].
    destruct (select_groups g0 b) as [next|e] eqn:Hs; simpl in Hr; [|discriminate].
    exact (select_groups_order _ _ _ Hs).
Qed.

Lemma apply_groupings_empty_group (g : Grouping) (gs : list Grouping) :
  order_ok g = true -> apply_groupings (g :: gs) [[]] = Ok [].
Proof.
  intros Ho. simpl. rewrite (select_groups_empty g Ho). simpl.
  apply apply_groupings_nil.
Qed.

(** Retention only gets easier in a smaller group. *)

Lemma distinct_values_incl (p : string) (g1 g2 : list Artifact) :
  incl g1 g2 -> incl (distinct_values p g1) (distinct_values p g2).
Proof.
  intros Hi v. rewrite !distinct_values_In. intros [a [Ha Hv]]. eauto.
Qed.

Lemma filter_NoDup_incl_length {A} (f : A -> bool) (l1 l2 : list A) :
  NoDup l1 -> incl l1 l2 ->
  (List.length (filter f l1) <= List.length (filter f l2))%nat.
Proof.
  intros Hnd Hi. apply NoDup_incl_length; [now apply NoDup_filter|].
  intros x. rewrite !filter_In. intros [Hx Hf]. split; [now apply Hi|exact Hf].
Qed.

Lemma retained_by_mono (g : Grouping) (g1 g2 : list Artifact) (o : option value) :
  incl g1 g2 -> retained_by g g2 o = true -> retained_by g g1 o = true.
Proof.
  intros Hi. unfold retained_by.
  destruct (keep_num g <=? 0); [reflexivity|]. cbv zeta.
  pose proof (distinct_values_incl (property_name g) g1 g2 Hi) as HV.
  pose proof (vdedup_NoDup (flat_map (fun a => match _get_property_value a (property_name g)
      with Some v => [v] | None => [] end) g1)) as Hnd.
  fold (distinct_values (property_name g) g1) in Hnd.
  set (V1 := distinct_values (property_name g) g1) in *.
  set (V2 := distinct_values (property_name g) g2) in *.
  pose proof (NoDup_incl_length Hnd HV) as Hl.
  destruct (keep_order g), o as [v|]; rewrite ?Z.ltb_lt; try discriminate;
    try (pose proof (filter_NoDup_incl_length (value_ltb v) V1 V2 Hnd HV));
    try (pose proof (filter_NoDup_incl_length (fun w => value_ltb w v) V1 V2 Hnd HV));
    lia.
Qed.

Lemma kept_by_groupings_mono (gs : list Grouping) (g1 g2 : list Artifact)
    (a : Artifact) :
  incl g1 g2 -> kept_by_groupings gs g2 a = true -> kept_by_groupings gs g1 a = true.
Proof.
  revert g1 g2. induction gs as [|g gs IH]; simpl; intros g1 g2 Hi H; [reflexivity|].
  apply andb_true_iff in H. destruct H as [Hr Hk]. apply andb_true_iff. split.
  - exact (retained_by_mono g g1 g2 _ Hi Hr).
  - refine (IH _ _ _ Hk). intros x. rewrite !filter_In. intros [Hx Hf].
    split; [apply Hi, Hx|exact Hf].
Qed.

(** The ids kept by [_artifacts_not_kept_by_property_value_groups] are those
    of the artifacts [kept_by_groupings] accepts. *)
Lemma kept_ids_filter (gs : list Grouping) (artifacts : list Artifact)
    (fs : list (list Artifact)) :
  NoDup (map id artifacts) ->
  apply_groupings gs [artifacts] = Ok fs ->
  filter (fun a => negb (Z_mem (id a) (map id (List.concat fs)))) artifacts
  = filter (fun a => negb (kept_by_groupings gs artifacts a)) artifacts.
Proof.
  intros Hnd Hfs. apply filter_ext_in. intros a Ha. f_equal.
  apply eq_iff_eq_true. rewrite Z_mem_In, in_map_iff. split.
  - intros [b [Hid Hb]].
    apply (apply_groupings_spec gs _ fs Hfs) in Hb.
    destruct Hb as [gr [[<-|[]] [Hb Hk]]].
    rewrite <- (NoDup_map_inj id artifacts b a Hnd Hb Ha Hid). exact Hk.
  - intros Hk. exists a. split; [reflexivity|].
    apply (apply_groupings_spec gs _ fs Hfs). exists artifacts.
    split; [now left|split; [exact Ha|exact Hk]].
Qed.

(** Four artifacts whose "span" values are 1, 1, 2 and 3. *)
Definition span_sample : list Artifact :=
  [span_art 31 "/model/31" 10 (VInt 1); span_art 32 "/model/32" 20 (VInt 1);
   span_art 33 "/model/33" 30 (VInt 2); span_art 34 "/model/34" 40 (VInt 3)].

(** C5: under a single grouping [{p, k > 0, KEEP_ORDER_LARGEST}], for
    artifacts with distinct ids whose non-null [p]-values share one type,
    the delete-set is exactly the artifacts whose [p]-value is not among the
    [k] largest distinct non-null values (at least [k] distinct values
    exceed it), and a null-valued artifact is deleted unless fewer than [k]
    distinct non-null values exist.  For values [1, 1, 2, 3] and [k = 1]
    the delete-set is the artifacts valued 1, 1 and 2. *)
Theorem kpvg_single_largest :
  (forall (artifacts : list Artifact) (p : string) (k : Z),
     0 < k -> NoDup (map id artifacts) -> homogeneous p artifacts ->
     let V := distinct_values p artifacts in
     _artifacts_not_kept_by_property_value_groups artifacts
       [mkGrouping p k KEEP_ORDER_LARGEST]
     = Ok (filter (fun a =>
             match _get_property_value a p with
             | Some v => k <=? Z.of_nat (List.length (filter (value_ltb v) V))
             | None => k <=? Z.of_nat (List.length V)
             end) artifacts))
  /\ _artifacts_not_kept_by_property_value_groups span_sample
       [mkGrouping "span" 1 KEEP_ORDER_LARGEST]
     = Ok (firstn 3 span_sample).
Proof.
  split; [|vm_compute; reflexivity].
  intros artifacts p k Hk Hnd Hh V.
  set (g := mkGrouping p k KEEP_ORDER_LARGEST).
  destruct (apply_groupings_ok [g] [artifacts]) as [fs Hfs].
  { intros g' [<-|[]]. split.
    - simpl. rewrite app_nil_r. exact Hh.
    - unfold order_ok. simpl. now rewrite orb_true_r. }
  unfold _artifacts_not_kept_by_property_value_groups.
  rewrite Hfs. cbn [rbind]. f_equal.
  rewrite (kept_ids_filter [g] artifacts fs Hnd Hfs).
  apply filter_ext. intros a. simpl. rewrite andb_true_r.
  unfold retained_by. simpl.
  replace (k <=? 0) with false by (symmetry; apply Z.leb_gt; exact Hk).
  fold V. destruct (_get_property_value a p); now rewrite Z.leb_antisym.
Qed.

Lemma kpvg_single_largest_witness :
  _artifacts_not_kept_by_property_value_groups span_sample
    [mkGrouping "span" 1 KEEP_ORDER_LARGEST]
  = Ok (filter (fun a =>
          match _get_property_value a "span" with
          | Some v => 1 <=? Z.of_nat (List.length
                        (filter (value_ltb v) (distinct_values "span" span_sample)))
          | None => 1 <=? Z.of_nat (List.length (distinct_values "span" span_sample))
          end) span_sample).
Proof.
  apply (proj1 kpvg_single_largest span_sample "span"%string 1).
  - lia.
  - unfold span_sample. simpl. repeat constructor; simpl; lia.
  - intros a1 a2 v1 v2 H1 H2 Hp1 Hp2. unfold span_sample in H1, H2.
    simpl in H1, H2.
    repeat destruct H1 as [<-|H1]; try contradiction;
    repeat destruct H2 as [<-|H2]; try contradiction;
    vm_compute in Hp1, Hp2; injection Hp1 as <-; injection Hp2 as <-; reflexivity.
Defined.

(** ** Idempotence *)

Lemma artifacts_minus_filter (A : list Artifact) (f : Artifact -> bool) :
  NoDup (map id A) ->
  artifacts_minus A (filter f A) = filter (fun a => negb (f a)) A.
Proof.
  intros Hnd. unfold artifacts_minus. apply filter_ext_in. intros a Ha. f_equal.
  apply eq_iff_eq_true. rewrite Z_mem_In, in_map_iff. split.
  - intros [b [Hid Hb]]. apply filter_In in Hb. destruct Hb as [Hb Hf].
    rewrite <- (NoDup_map_inj id A b a Hnd Hb Ha Hid). exact Hf.
  - intros Hf. exists a. split; [reflexivity|]. now apply filter_In.
Qed.

Lemma artifacts_minus_self (A : list Artifact) : artifacts_minus A A = [].
Proof.
  unfold artifacts_minus. apply filter_none. intros a Ha.
  assert (Z_mem (id a) (map id A) = true) as -> by (apply Z_mem_In, in_map, Ha).
  reflexivity.
Qed.

Lemma NoDup_map_filter {A B} (f : A -> B) (g : A -> bool) (l : list A) :
  NoDup (map f l) -> NoDup (map f (filter g l)).
Proof.
  induction l as [|x l IH]; simpl; intros Hnd; [constructor|].
  inversion Hnd as [|? ? Hnin Hnd']; subst.
  destruct (g x); simpl; [|now apply IH].
  constructor; [|now apply IH].
  intros H. apply Hnin. apply in_map_iff in H. destruct H as [y [Hy Hin]].
  apply filter_In in Hin. rewrite <- Hy. apply in_map, Hin.
Qed.

Lemma filter_length_mono {A} (f g : A -> bool) (l : list A) :
  (forall x, f x = true -> g x = true) ->
  (List.length (filter f l) <= List.length (filter g l))%nat.
Proof.
  intros H. induction l as [|x l IH]; simpl; [lia|].
  destruct (f x) eqn:E; [rewrite (H x E); simpl; lia|].
  destruct (g x); simpl; lia.
Qed.

Lemma filter_filter_length {A} (f g : A -> bool) (l : list A) :
  (List.length (filter g (filter f l)) <= List.length (filter g l))%nat.
Proof.
  induction l as [|x l IH]; simpl; [lia|].
  destruct (f x) eqn:Ef, (g x) eqn:Eg; simpl; rewrite ?Eg; simpl; lia.
Qed.

(** In a sorted list, fewer than [len - i] entries exceed the entry at
    index [i]. *)
Lemma sorted_greater_than_nth (l : list Z) (i : nat) :
  StronglySorted (leP Z.leb) l -> (i < List.length l)%nat ->
  (List.length (filter (fun t => Z.ltb (nth i l 0%Z) t) l) <= List.length l - i - 1)%nat.
Proof.
  revert i. induction l as [|x l IH]; intros i Hs Hi; simpl in Hi; [lia|].
  inversion Hs as [|? ? Hs' Hall]; subst.
  rewrite Forall_forall in Hall. unfold leP in Hall.
  destruct i as [|i]; simpl.
  - rewrite Z.ltb_irrefl. pose proof (filter_length_le (fun t => x <? t) l). lia.
  - assert (Hy : In (nth i l 0%Z) l) by (apply nth_In; lia).
    pose proof (Hall _ Hy) as Hxy. apply Z.leb_le in Hxy.
    replace (nth i l 0%Z <? x) with false by (symmetry; apply Z.ltb_ge; lia).
    specialize (IH i Hs' ltac:(lia)). lia.
Qed.

Lemma kmrp_idempotent (A : list Artifact) (n : Z) :
  NoDup (map id A) ->
  _artifacts_not_most_recently_published
    (artifacts_minus A (_artifacts_not_most_recently_published A n)) n = [].
Proof.
  intros Hnd. unfold _artifacts_not_most_recently_published at 2.
  destruct (n <=? 0) eqn:Hn.
  - rewrite artifacts_minus_self. unfold _artifacts_not_most_recently_published.
    now rewrite Hn.
  - destruct (Z.of_nat (List.length A) <=? n) eqn:Hl.
    + replace (artifacts_minus A []) with A.
      * unfold _artifacts_not_most_recently_published. now rewrite Hn, Hl.
      * unfold artifacts_minus. simpl. symmetry. apply forallb_filter_id.
        apply forallb_forall. reflexivity.
    + set (N := Z.to_nat n).
      assert (HN : Z.of_nat N = n) by (apply Z2Nat.id; apply Z.leb_gt in Hn; lia).
      apply Z.leb_gt in Hl.
      set (SA := sorted_by Z.leb (map create_time_since_epoch A)).
      set (c := nth (List.length A - N) SA 0).
      rewrite artifacts_minus_filter by exact Hnd.
      set (K := filter (fun a => negb (create_time_since_epoch a <? c)) A).
      unfold _artifacts_not_most_recently_published. rewrite Hn.
      destruct (Z.of_nat (List.length K) <=? n) eqn:HlK; [reflexivity|].
      apply Z.leb_gt in HlK.
      set (SK := sorted_by Z.leb (map create_time_since_epoch K)).
      set (c' := nth (List.length K - N) SK 0).
      assert (Hc' : c' <= c).
      { destruct (Z.le_gt_cases c' c) as [Hle|Hgt]; [exact Hle|exfalso].
        assert (HPK : Permutation SK (map create_time_since_epoch K))
          by apply sorted_by_perm.
        assert (HPA : Permutation SA (map create_time_since_epoch A))
          by apply sorted_by_perm.
        assert (HSK : StronglySorted (leP Z.leb) SK)
          by (apply sorted_by_strongly_sorted; [apply Zleb_total|apply Zleb_trans]).
        assert (HSA : StronglySorted (leP Z.leb) SA)
          by (apply sorted_by_strongly_sorted; [apply Zleb_total|apply Zleb_trans]).
        assert (HlSK : List.length SK = List.length K)
          by (rewrite (Permutation_length HPK); apply length_map).
        assert (HlSA : List.length SA = List.length A)
          by (rewrite (Permutation_length HPA); apply length_map).
        pose proof (sorted_at_least_from SK (List.length K - N) HSK ltac:(lia)) as H1.
        rewrite (filter_length_perm _ _ _ HPK), filter_map_length in H1.
        fold c' in H1.
        pose proof (sorted_greater_than_nth SA (List.length A - N) HSA ltac:(lia)) as H2.
        rewrite (filter_length_perm _ _ _ HPA), filter_map_length in H2.
        fold c in H2.
        pose proof (filter_length_mono
                      (fun a => c' <=? create_time_since_epoch a)
                      (fun a => c <? create_time_since_epoch a) K
                      ltac:(intros x Hx; apply Z.leb_le in Hx; apply Z.ltb_lt; lia))
          as H3.
        pose proof (filter_filter_length
                      (fun a => negb (create_time_since_epoch a <? c))
                      (fun a => c <? create_time_since_epoch a) A) as H4.
        fold K in H4. cbn beta in H1, H2.
        apply Z.leb_gt in Hn.
        clear - H1 H2 H3 H4 HlSK HlSA HlK Hl HN Hn.
        lia. }
      apply filter_none. intros a Ha. unfold K in Ha. apply filter_In in Ha.
      destruct Ha as [_ Ha]. apply negb_true_iff, Z.ltb_ge in Ha.
      cbn beta. apply Z.ltb_ge. fold N. fold c'. lia.
Qed.

Lemma apply_groupings_head_order (g : Grouping) (gs : list Grouping)
    (A : list Artifact) (fs : list (list Artifact)) :
  apply_groupings (g :: gs) [A] = Ok fs -> order_ok g = true.
Proof.
  cbn [apply_groupings].
  destruct (regroup g None [A]) as [ns|e] eqn:Hr; cbn [rbind];
    [|intros H; discriminate H].
  intros _. simpl in Hr.
  destruct (bucket_group (property_name g) None A []) as [[t1 b]|e];
    simpl in Hr; [|discriminate].
  destruct (select_groups g b) as [next|e] eqn:Hs; [|discriminate].
  exact (select_groups_order _ _ _ Hs).
Qed.

Lemma kpvg_idempotent (A : list Artifact) (gs : list Grouping) (del : list Artifact) :
  NoDup (map id A) ->
  _artifacts_not_kept_by_property_value_groups A gs = Ok del ->
  _artifacts_not_kept_by_property_value_groups (artifacts_minus A del) gs = Ok [].
Proof.
  intros Hnd H. unfold _artifacts_not_kept_by_property_value_groups in H.
  destruct (apply_groupings gs [A]) as [fs|e] eqn:Hfs; cbn [rbind] in H;
    [|discriminate].
  injection H as <-.
  rewrite (kept_ids_filter gs A fs Hnd Hfs), artifacts_minus_filter by exact Hnd.
  set (K := filter (fun a => negb (negb (kept_by_groupings gs A a))) A).
  assert (HK : forall a, In a K <-> In a A /\ kept_by_groupings gs A a = true).
  { intros a. unfold K. rewrite filter_In, negb_involutive. tauto. }
  assert (HKfs : incl K (List.concat fs)).
  { intros a Ha. apply HK in Ha. apply (apply_groupings_spec gs [A] fs Hfs).
    exists A. split; [now left|tauto]. }
  assert (HndK : NoDup (map id K)) by (apply NoDup_map_filter, Hnd).
  clearbody K.
  assert (Hok : exists fs2, apply_groupings gs [K] = Ok fs2).
  { destruct K as [|a0 K'].
    - destruct gs as [|g gs']; [exists [[]]; reflexivity|]. exists [].
      apply apply_groupings_empty_group.
      exact (apply_groupings_head_order _ _ _ _ Hfs).
    - apply apply_groupings_ok. intros g Hg. split.
      + apply (homogeneous_incl _ (List.concat fs)).
        * simpl. rewrite app_nil_r. exact HKfs.
        * exact (apply_groupings_homog _ _ _ Hfs g Hg).
      + apply (apply_groupings_order gs [A] fs Hfs); [|exact Hg].
        intros E. pose proof (HKfs a0 (or_introl eq_refl)) as H0.
        rewrite E in H0. contradiction. }
  destruct Hok as [fs2 Hfs2].
  unfold _artifacts_not_kept_by_property_value_groups. rewrite Hfs2. cbn [rbind].
  f_equal. rewrite (kept_ids_filter gs K fs2 HndK Hfs2). apply filter_none.
  intros a Ha.
  assert (kept_by_groupings gs K a = true) as ->; [|reflexivity].
  apply (kept_by_groupings_mono gs K A a).
  - intros x Hx. exact (proj1 (proj1 (HK x) Hx)).
  - exact (proj2 (proj1 (HK a) Ha)).
Qed.

(** C9: retention is idempotent at the policy level.  For artifacts with
    distinct ids and any policy whose evaluation on [A] succeeds with
    delete-set [D], evaluating the same policy on the kept artifacts
    [A \ D] yields an empty delete-set; this covers
    [KeepMostRecentlyPublished], [KeepPropertyValueGroups] (any number of
    groupings) and the unset policy. *)
Theorem gc_policy_idempotent (artifacts delete : list Artifact)
    (policy : GarbageCollectionPolicy) :
  NoDup (map id artifacts) ->
  _artifacts_to_garbage_collect_for_policy artifacts policy = Ok delete ->
  _artifacts_to_garbage_collect_for_policy (artifacts_minus artifacts delete) policy
  = Ok [].
Proof.
  intros Hnd. unfold _artifacts_to_garbage_collect_for_policy.
  destruct (policy_variant policy) as [n|gs|]; intros H.
  - injection H as <-. f_equal. now apply kmrp_idempotent.
  - now apply kpvg_idempotent.
  - reflexivity.
Qed.

Lemma gc_policy_idempotent_witness :
  _artifacts_to_garbage_collect_for_policy
    (artifacts_minus span_sample (firstn 3 span_sample)) (span_policy 1) = Ok [] /\
  _artifacts_to_garbage_collect_for_policy
    (artifacts_minus ts_sample [art 1 "/out/1" 10]) (kmrp_policy 2) = Ok [].
Proof.
  split.
  - apply (gc_policy_idempotent span_sample (firstn 3 span_sample) (span_policy 1)).
    + unfold span_sample. simpl. repeat constructor; simpl; lia.
    + vm_compute. reflexivity.
  - apply (gc_policy_idempotent ts_sample [art 1 "/out/1" 10] (kmrp_policy 2)).
    + unfold ts_sample. simpl. repeat constructor; simpl; lia.
    + vm_compute. reflexivity.
Defined.

(* ------------------------------------------------------------------ *)
(** ** Further properties of the pass *)

(** *** Property lookup *)






(** *** KeepMostRecentlyPublished *)

Lemma sorted_nth_le (l : list Z) (i j : nat) :
  StronglySorted (leP Z.leb) l -> (i <= j)%nat -> (j < List.length l)%nat ->
  nth i l 0 <= nth j l 0.
Proof.
  revert i j. induction l as [|x l IH]; intros i j Hs Hij Hj; simpl in Hj; [lia|].
  inversion Hs as [|? ? Hs' Hall]; subst.
  rewrite Forall_forall in Hall. unfold leP in Hall.
  destruct i as [|i], j as [|j]; simpl; try lia.
  - apply Z.leb_le, Hall, nth_In. lia.
  - apply IH; [exact Hs'|lia|lia].
Qed.

(** The delete-set of [KeepMostRecentlyPublished(n)] is closed towards the
    past: when an artifact is deleted, so is every artifact of the list
    published no later than it, whatever [n]. *)
Theorem kmrp_downward_closed (artifacts : list Artifact) (n : Z) (a b : Artifact) :
  In a (_artifacts_not_most_recently_published artifacts n) ->
  In b artifacts ->
  create_time_since_epoch b <= create_time_since_epoch a ->
  In b (_artifacts_not_most_recently_published artifacts n).
Proof.
  unfold _artifacts_not_most_recently_published.
  destruct (n <=? 0); [intros _ Hb _; exact Hb|].
  destruct (Z.of_nat (List.length artifacts) <=? n); [intros []|].
  rewrite !filter_In, !Z.ltb_lt. intros [_ Ha] Hb Hba. split; [exact Hb|lia].
Qed.

Lemma kmrp_downward_closed_witness :
  In (art 2 "/out/2" 20) (_artifacts_not_most_recently_published ts_sample 1).
Proof.
  apply (kmrp_downward_closed ts_sample 1 (art 3 "/out/3" 20)).
  - vm_compute. tauto.
  - simpl. tauto.
  - simpl. lia.
Defined.

(** For [n > 0], [KeepMostRecentlyPublished(n)] never deletes an artifact
    published last (no artifact of the list is newer). *)
Theorem kmrp_keeps_newest (artifacts : list Artifact) (n : Z) (a : Artifact) :
  0 < n -> In a artifacts ->
  (forall b, In b artifacts -> create_time_since_epoch b <= create_time_since_epoch a) ->
  ~ In a (_artifacts_not_most_recently_published artifacts n).
Proof.
  intros Hn Ha Hmax. unfold _artifacts_not_most_recently_published.
  replace (n <=? 0) with false by (symmetry; apply Z.leb_gt; lia).
  destruct (Z.of_nat (List.length artifacts) <=? n) eqn:Hl; [intros []|].
  apply Z.leb_gt in Hl.
  set (S := sorted_by Z.leb (map create_time_since_epoch artifacts)).
  assert (HP : Permutation S (map create_time_since_epoch artifacts))
    by apply sorted_by_perm.
  assert (HlS : List.length S = List.length artifacts)
    by (rewrite (Permutation_length HP); apply length_map).
  assert (Hc : In (nth (List.length artifacts - Z.to_nat n) S 0) S)
    by (apply nth_In; lia).
  apply (Permutation_in _ HP), in_map_iff in Hc. destruct Hc as [b [Hb Hbin]].
  rewrite filter_In, Z.ltb_lt, <- Hb. intros [_ Hlt].
  specialize (Hmax b Hbin). lia.
Qed.

Lemma kmrp_keeps_newest_witness :
  ~ In (art 4 "/out/4" 30) (_artifacts_not_most_recently_published ts_sample 1).
Proof.
  apply kmrp_keeps_newest.
  - lia.
  - simpl. tauto.
  - intros b Hb. simpl in Hb.
    repeat destruct Hb as [<-|Hb]; simpl; try lia; contradiction.
Defined.

(** A larger [num_artifacts] never deletes more: for [n <= m] the
    delete-set of [KeepMostRecentlyPublished(m)] is contained in that of
    [KeepMostRecentlyPublished(n)]. *)
Theorem kmrp_monotone (artifacts : list Artifact) (n m : Z) :
  n <= m ->
  incl (_artifacts_not_most_recently_published artifacts m)
       (_artifacts_not_most_recently_published artifacts n).
Proof.
  intros Hnm a. unfold _artifacts_not_most_recently_published.
  destruct (m <=? 0) eqn:Hm.
  - replace (n <=? 0) with true by (symmetry; apply Z.leb_le in Hm; apply Z.leb_le; lia).
    tauto.
  - apply Z.leb_gt in Hm.
    destruct (Z.of_nat (List.length artifacts) <=? m) eqn:Hl; [intros []|].
    apply Z.leb_gt in Hl.
    intros Ha. apply filter_In in Ha as [Ha Hlt].
    destruct (n <=? 0) eqn:Hn; [exact Ha|]. apply Z.leb_gt in Hn.
    replace (Z.of_nat (List.length artifacts) <=? n) with false
      by (symmetry; apply Z.leb_gt; lia).
    apply filter_In. split; [exact Ha|].
    set (S := sorted_by Z.leb (map create_time_since_epoch artifacts)) in *.
    assert (HP : Permutation S (map create_time_since_epoch artifacts))
      by apply sorted_by_perm.
    assert (HS : StronglySorted (leP Z.leb) S)
      by (apply sorted_by_strongly_sorted; [apply Zleb_total|apply Zleb_trans]).
    assert (HlS : List.length S = List.length artifacts)
      by (rewrite (Permutation_length HP); apply length_map).
    assert (Hm' : Z.of_nat (Z.to_nat m) = m) by (apply Z2Nat.id; lia).
    assert (Hn' : Z.of_nat (Z.to_nat n) = n) by (apply Z2Nat.id; lia).
    pose proof (sorted_nth_le S (List.length artifacts - Z.to_nat m)
                  (List.length artifacts - Z.to_nat n) HS ltac:(lia) ltac:(lia)).
    rewrite Z.ltb_lt in *. lia.
Qed.

Lemma kmrp_monotone_witness :
  incl (_artifacts_not_most_recently_published ts_sample 2)
       (_artifacts_not_most_recently_published ts_sample 1).
Proof. apply kmrp_monotone. lia. Defined.

(** *** KeepPropertyValueGroups *)

Lemma kept_by_groupings_nonpos (gs : list Grouping) (group : list Artifact)
    (a : Artifact) :
  (forall g, In g gs -> keep_num g <= 0) -> kept_by_groupings gs group a = true.
Proof.
  revert group. induction gs as [|g gs IH]; simpl; intros group H; [reflexivity|].
  apply andb_true_iff. split.
  - unfold retained_by.
    replace (keep_num g <=? 0) with true
      by (symmetry; apply Z.leb_le, H; now left).
    reflexivity.
  - apply IH. intros g' Hg'. apply H. now right.
Qed.

(** Groupings that keep no bounded number of groups delete nothing: with
    no groupings the delete-set is empty, and when every grouping has
    [keep_num <= 0] a successful evaluation deletes no artifact. *)
Theorem kpvg_nonpositive_keeps_all (artifacts : list Artifact)
    (groupings : list Grouping) (del : list Artifact) :
  _artifacts_not_kept_by_property_value_groups artifacts [] = Ok [] /\
  ((forall g, In g groupings -> keep_num g <= 0) ->
   _artifacts_not_kept_by_property_value_groups artifacts groupings = Ok del ->
   del = []).
Proof.
  split.
  - unfold _artifacts_not_kept_by_property_value_groups. simpl. f_equal.
    apply filter_none. intros a Ha.
    assert (Z_mem (id a) (map id (artifacts ++ [])) = true) as ->; [|reflexivity].
    apply Z_mem_In, in_map. rewrite app_nil_r. exact Ha.
  - intros Hk H. unfold _artifacts_not_kept_by_property_value_groups in H.
    destruct (apply_groupings groupings [artifacts]) as [fs|e] eqn:Hfs;
      cbn [rbind] in H; [|discriminate].
    injection H as <-. apply filter_none. intros a Ha.
    assert (Z_mem (id a) (map id (List.concat fs)) = true) as ->; [|reflexivity].
    apply Z_mem_In, in_map. apply (apply_groupings_spec groupings _ fs Hfs).
    exists artifacts. split; [now left|split; [exact Ha|]].
    now apply kept_by_groupings_nonpos.
Qed.

Lemma kpvg_nonpositive_keeps_all_witness :
  exists del, _artifacts_not_kept_by_property_value_groups span_sample
                [mkGrouping "span" 0 KEEP_ORDER_LARGEST] = Ok del /\ del = [].
Proof.
  assert (H : _artifacts_not_kept_by_property_value_groups span_sample
                [mkGrouping "span" 0 KEEP_ORDER_LARGEST] = Ok []) by (vm_compute; reflexivity).
  exists []. split; [exact H|].
  apply (proj2 (kpvg_nonpositive_keeps_all span_sample
                  [mkGrouping "span" 0 KEEP_ORDER_LARGEST] [])).
  - intros g [<-|[]]. simpl. lia.
  - exact H.
Defined.

Lemma value_max_exists (l : list value) :
  l <> [] -> exists m, In m l /\ forall w, In w l -> value_leb w m = true.
Proof.
  induction l as [|x l IH]; intros Hne; [contradiction|].
  destruct l as [|y l'].
  - exists x. split; [now left|]. intros w [<-|[]]. apply value_leb_refl.
  - destruct (IH ltac:(discriminate)) as [m [Hm Hmax]].
    destruct (value_leb x m) eqn:E.
    + exists m. split; [now right|]. intros w [<-|Hw]; [exact E|exact (Hmax w Hw)].
    + apply value_leb_total in E. exists x. split; [now left|].
      intros w [<-|Hw]; [apply value_leb_refl|].
      exact (value_leb_trans _ _ _ (Hmax w Hw) E).
Qed.

Lemma value_min_exists (l : list value) :
  l <> [] -> exists m, In m l /\ forall w, In w l -> value_leb m w = true.
Proof.
  induction l as [|x l IH]; intros Hne; [contradiction|].
  destruct l as [|y l'].
  - exists x. split; [now left|]. intros w [<-|[]]. apply value_leb_refl.
  - destruct (IH ltac:(discriminate)) as [m [Hm Hmin]].
    destruct (value_leb m x) eqn:E.
    + exists m. split; [now right|]. intros w [<-|Hw]; [exact E|exact (Hmin w Hw)].
    + apply value_leb_total in E. exists x. split; [now left|].
      intros w [<-|Hw]; [apply value_leb_refl|].
      exact (value_leb_trans _ _ _ E (Hmin w Hw)).
Qed.

(** With a known order, every non-empty group retains some artifact. *)
Lemma retained_exists (g : Grouping) (group : list Artifact) :
  order_ok g = true -> group <> [] ->
  exists a, In a group /\
            retained_by g group (_get_property_value a (property_name g)) = true.
Proof.
  intros Ho Hne. unfold order_ok in Ho. unfold retained_by.
  destruct (keep_num g <=? 0) eqn:Hk.
  - destruct group as [|a group]; [contradiction|]. exists a. split; [now left|reflexivity].
  - apply Z.leb_gt in Hk. simpl in Ho.
    set (p := property_name g).
    set (V := distinct_values p group).
    destruct V as [|v0 V'] eqn:EV.
    + destruct group as [|a group]; [contradiction|]. exists a. split; [now left|].
      destruct (_get_property_value a p) as [v|] eqn:Hpa.
      * exfalso. assert (Hv : In v V).
        { unfold V. apply distinct_values_In. exists a. split; [now left|exact Hpa]. }
        rewrite EV in Hv. contradiction.
      * destruct (keep_order g); try discriminate; simpl; apply Z.ltb_lt; exact Hk.
    + rewrite <- EV.
      assert (HVne : V <> []) by (rewrite EV; discriminate).
      assert (Hpick : forall m, In m V ->
                exists a, In a group /\ _get_property_value a p = Some m).
      { intros m Hm. now apply distinct_values_In. }
      destruct (keep_order g) eqn:Ho'; try discriminate.
      1,2: destruct (value_max_exists V HVne) as [m [Hm Hmax]].
      3: destruct (value_min_exists V HVne) as [m [Hm Hmin]].
      all: destruct (Hpick m Hm) as [a [Ha Hpa]]; exists a; split; [exact Ha|];
        rewrite Hpa; apply Z.ltb_lt.
      all: rewrite filter_none; [simpl; lia|].
      all: intros w Hw; unfold value_ltb.
      1,2: now rewrite (Hmax w Hw).
      now rewrite (Hmin w Hw).
Qed.

Lemma regroup_order (g : Grouping) (t : option value_type)
    (groups ns : list (list Artifact)) :
  regroup g t groups = Ok ns -> groups <> [] -> order_ok g = true.
Proof.
  destruct groups as [|gr groups]; intros H Hne; [contradiction|].
  simpl in H.
  destruct (bucket_group (property_name g) t gr []) as [[t1 b]|e];
    simpl in H; [|discriminate].
  destruct (select_groups g b) as [next|e] eqn:Hs; [|discriminate].
  exact (select_groups_order _ _ _ Hs).
Qed.

Lemma apply_groupings_nonempty (gs : list Grouping) (groups fs : list (list Artifact)) :
  apply_groupings gs groups = Ok fs ->
  (exists group, In group groups /\ group <> []) ->
  exists group, In group fs /\ group <> [].
Proof.
  revert groups. induction gs as [|g gs IH]; simpl; intros groups H [gr [Hgr Hne]].
  - injection H as <-. eauto.
  - destruct (regroup g None groups) as [ns|e] eqn:Hr; simpl in H; [|discriminate].
    apply (IH ns H).
    assert (Ho : order_ok g = true).
    { apply (regroup_order g None groups ns Hr). intros E. now rewrite E in Hgr. }
    destruct (retained_exists g gr Ho Hne) as [a [Ha Hret]].
    destruct (proj2 (regroup_spec g None groups ns Hr _ a)
                (ex_intro _ gr (conj Hgr (conj Ha (conj Hret eq_refl)))))
      as [Hn Han].
    eexists. split; [exact Hn|]. intros E. rewrite E in Han. contradiction.
Qed.

(** [KeepPropertyValueGroups] never deletes a whole non-empty artifact
    list: when the evaluation succeeds, some artifact is kept, whatever
    the groupings. *)
Theorem kpvg_keeps_some (artifacts : list Artifact) (groupings : list Grouping)
    (del : list Artifact) :
  artifacts <> [] ->
  _artifacts_not_kept_by_property_value_groups artifacts groupings = Ok del ->
  exists a, In a artifacts /\ ~ In a del.
Proof.
  intros Hne H. unfold _artifacts_not_kept_by_property_value_groups in H.
  destruct (apply_groupings groupings [artifacts]) as [fs|e] eqn:Hfs;
    cbn [rbind] in H; [|discriminate].
  injection H as <-.
  destruct (apply_groupings_nonempty groupings [artifacts] fs Hfs
              (ex_intro _ artifacts (conj (or_introl eq_refl) Hne)))
    as [n [Hn Hnne]].
  destruct n as [|b n]; [contradiction|].
  assert (Hb : In b (List.concat fs)) by (apply in_concat; exists (b :: n); split; [exact Hn|now left]).
  exists b. split.
  - pose proof (apply_groupings_incl _ _ _ Hfs b Hb) as Hb'. simpl in Hb'.
    rewrite app_nil_r in Hb'. exact Hb'.
  - rewrite filter_In. intros [_ Hnot].
    assert (Z_mem (id b) (map id (List.concat fs)) = true) as E
      by (apply Z_mem_In, in_map, Hb).
    rewrite E in Hnot. discriminate.
Qed.

Lemma kpvg_keeps_some_witness :
  exists a, In a span_sample /\ ~ In a (firstn 3 span_sample).
Proof.
  apply (kpvg_keeps_some span_sample [mkGrouping "span" 1 KEEP_ORDER_LARGEST]).
  - discriminate.
  - vm_compute. reflexivity.
Defined.

(** Under a single grouping [{p, k > 0, KEEP_ORDER_SMALLEST}], for
    artifacts with distinct ids whose non-null [p]-values share one type,
    the delete-set is exactly the artifacts whose [p]-value has at least
    [k] smaller distinct non-null values, together with the null-valued
    artifacts when at least [k] distinct non-null values exist. *)
Theorem kpvg_single_smallest (artifacts : list Artifact) (p : string) (k : Z) :
  0 < k -> NoDup (map id artifacts) -> homogeneous p artifacts ->
  let V := distinct_values p artifacts in
  _artifacts_not_kept_by_property_value_groups artifacts
    [mkGrouping p k KEEP_ORDER_SMALLEST]
  = Ok (filter (fun a =>
          match _get_property_value a p with
          | Some v => k <=? Z.of_nat (List.length (filter (fun w => value_ltb w v) V))
          | None => k <=? Z.of_nat (List.length V)
          end) artifacts).
Proof.
  intros Hk Hnd Hh V.
  set (g := mkGrouping p k KEEP_ORDER_SMALLEST).
  destruct (apply_groupings_ok [g] [artifacts]) as [fs Hfs].
  { intros g' [<-|[]]. split.
    - simpl. rewrite app_nil_r. exact Hh.
    - unfold order_ok. simpl. now rewrite orb_true_r. }
  unfold _artifacts_not_kept_by_property_value_groups.
  rewrite Hfs. cbn [rbind]. f_equal.
  rewrite (kept_ids_filter [g] artifacts fs Hnd Hfs).
  apply filter_ext. intros a. simpl. rewrite andb_true_r.
  unfold retained_by. simpl.
  replace (k <=? 0) with false by (symmetry; apply Z.leb_gt; exact Hk).
  fold V. destruct (_get_property_value a p); now rewrite Z.leb_antisym.
Qed.

(** On "span" values 1, 1, 2, 3 with [k = 1] the two artifacts valued 1
    are kept. *)
Lemma kpvg_single_smallest_witness :
  _artifacts_not_kept_by_property_value_groups span_sample
    [mkGrouping "span" 1 KEEP_ORDER_SMALLEST]
  = Ok (filter (fun a =>
          match _get_property_value a "span" with
          | Some v => 1 <=? Z.of_nat (List.length
                        (filter (fun w => value_ltb w v) (distinct_values "span" span_sample)))
          | None => 1 <=? Z.of_nat (List.length (distinct_values "span" span_sample))
          end) span_sample) /\
  _artifacts_not_kept_by_property_value_groups span_sample
    [mkGrouping "span" 1 KEEP_ORDER_SMALLEST] = Ok (skipn 2 span_sample).
Proof.
  split; [|vm_compute; reflexivity].
  apply (kpvg_single_smallest span_sample "span"%string 1).
  - lia.
  - unfold span_sample. simpl. repeat constructor; simpl; lia.
  - intros a1 a2 v1 v2 H1 H2 Hp1 Hp2. unfold span_sample in H1, H2.
    simpl in H1, H2.
    repeat destruct H1 as [<-|H1]; try contradiction;
    repeat destruct H2 as [<-|H2]; try contradiction;
    vm_compute in Hp1, Hp2; injection Hp1 as <-; injection Hp2 as <-; reflexivity.
Defined.

(** *** The in-use filter against a store *)

(** The store's executions with the requested ids, in store order. *)
Definition executions_of_store (store : list Execution) (ids : list Z)
  : result (list Execution) :=
  Ok (filter (fun x => Z_mem (exec_id x) ids) store).

Lemma lookup_execution_fold_none (i : Z) (l : list Execution) (acc : option Execution) :
  (forall x, In x l -> exec_id x <> i) ->
  fold_left (fun acc e => if exec_id e =? i then Some e else acc) l acc = acc.
Proof.
  revert acc. induction l as [|x l IH]; simpl; intros acc H; [reflexivity|].
  replace (exec_id x =? i) with false by (symmetry; apply Z.eqb_neq, H; now left).
  apply IH. intros y Hy. apply H. now right.
Qed.

Lemma lookup_execution_fold_some (i : Z) (l : list Execution) (acc : option Execution)
    (x : Execution) :
  In x l -> exec_id x = i ->
  exists y, fold_left (fun acc e => if exec_id e =? i then Some e else acc) l acc = Some y.
Proof.
  revert acc x. induction l as [|z l IH]; simpl; intros acc x Hx Hid; [contradiction|].
  destruct Hx as [<-|Hx]; [|exact (IH _ x Hx Hid)].
  rewrite (proj2 (Z.eqb_eq _ _) Hid).
  destruct (in_dec Z.eq_dec i (map exec_id l)) as [Hin|Hnin].
  - apply in_map_iff in Hin. destruct Hin as [y [Hy Hyl]]. exact (IH _ y Hyl Hy).
  - exists z. apply lookup_execution_fold_none. intros y Hy E. apply Hnin.
    rewrite <- E. now apply in_map.
Qed.

Lemma lookup_execution_none (i : Z) (l : list Execution) :
  lookup_execution i l = None <-> forall x, In x l -> exec_id x <> i.
Proof.
  unfold lookup_execution. split.
  - intros H x Hx Hid. destruct (lookup_execution_fold_some i l None x Hx Hid) as [y Hy].
    congruence.
  - intros H. now apply lookup_execution_fold_none.
Qed.

(** [lookup_execution] in the executions fetched for [ids], for an id of
    [ids]. *)
Lemma lookup_store_some (store : list Execution) (ids : list Z) (i : Z) (x : Execution) :
  NoDup (map exec_id store) -> In i ids ->
  (lookup_execution i (filter (fun y => Z_mem (exec_id y) ids) store) = Some x
   <-> In x store /\ exec_id x = i).
Proof.
  intros Hnd Hi. split.
  - intros H. apply lookup_execution_some in H as [Hx Hid].
    apply filter_In in Hx. tauto.
  - intros [Hx Hid].
    assert (Hxf : In x (filter (fun y => Z_mem (exec_id y) ids) store))
      by (apply filter_In; split; [exact Hx|apply Z_mem_In; congruence]).
    unfold lookup_execution.
    destruct (lookup_execution_fold_some i _ None x Hxf Hid) as [y Hy].
    rewrite Hy. pose proof (lookup_execution_some i _ y Hy) as [Hyf Hyid].
    apply filter_In in Hyf as [Hy' _]. f_equal.
    apply (NoDup_map_inj exec_id store); auto. congruence.
Qed.

Lemma lookup_store_none (store : list Execution) (ids : list Z) (i : Z) :
  In i ids ->
  (lookup_execution i (filter (fun y => Z_mem (exec_id y) ids) store) = None
   <-> forall x, In x store -> exec_id x <> i).
Proof.
  intros Hi. rewrite lookup_execution_none. split.
  - intros H x Hx Hid. apply (H x); [|exact Hid].
    apply filter_In. split; [exact Hx|apply Z_mem_In; congruence].
  - intros H x Hx. apply filter_In in Hx. exact (H x (proj1 Hx)).
Qed.

Section InUseStore.

Variable is_valid_input_event : Event -> bool.
Variable is_execution_active : Execution -> bool.

Lemma in_use_ids_iff (executions : list Execution) (input_events : list Event)
    (ids : list Z) :
  in_use_ids is_execution_active executions input_events = Ok ids ->
  forall z, In z ids <->
    exists e x, In e input_events /\ artifact_id e = z /\
      lookup_execution (execution_id e) executions = Some x /\
      is_execution_active x = true.
Proof.
  revert ids. induction input_events as [|ev rest IH]; simpl; intros ids H z.
  - injection H as <-. split; [intros []|intros [e [x [[] _]]]].
  - destruct (lookup_execution (execution_id ev) executions) as [x0|] eqn:Hl;
      [|discriminate].
    destruct (in_use_ids is_execution_active executions rest) as [ids'|err] eqn:Hr;
      simpl in H; [|discriminate].
    assert (Hids : forall z, In z ids <->
              (is_execution_active x0 = true /\ artifact_id ev = z) \/ In z ids').
    { intros z'. destruct (is_execution_active x0); injection H as <-; simpl;
        [|split; [now right|intros [[? _]|?]; [discriminate|assumption]]].
      split; [intros [E|E]; [left; auto|now right]|intros [[_ E]|E]; [now left|now right]]. }
    rewrite Hids, (IH ids' eq_refl z). split.
    + intros [[Ha Hz]|[e [x [He Hrest]]]].
      * exists ev, x0. split; [now left|auto].
      * exists e, x. split; [now right|exact Hrest].
    + intros [e [x [[<-|He] [Hz [Hlx Ha]]]]].
      * left. rewrite Hl in Hlx. injection Hlx as <-. auto.
      * right. exists e, x. auto.
Qed.

Lemma in_use_ids_err (executions : list Execution) (input_events : list Event)
    (err : exn) :
  in_use_ids is_execution_active executions input_events = Err err <->
  err = RuntimeError "Could not find execution with id" /\
  exists e, In e input_events /\ lookup_execution (execution_id e) executions = None.
Proof.
  induction input_events as [|ev rest IH]; simpl.
  - split; [discriminate|]. intros [_ [e [[] _]]].
  - destruct (lookup_execution (execution_id ev) executions) as [x0|] eqn:Hl.
    + destruct (in_use_ids is_execution_active executions rest) as [ids'|e1] eqn:Hr;
        simpl.
      * split; [destruct (is_execution_active x0); discriminate|].
        intros [Herr [e [[<-|He] Hle]]]; [congruence|].
        assert (E : Ok ids' = Err err) by (apply IH; split; [exact Herr|eauto]).
        discriminate E.
      * split.
        -- intros H. apply IH in H as [-> [e [He Hle]]].
           split; [reflexivity|]. exists e. split; [now right|exact Hle].
        -- intros [-> [e [[<-|He] Hle]]]; [congruence|].
           apply IH. split; [reflexivity|eauto].
    + split.
      * intros H. injection H as <-. split; [reflexivity|]. exists ev. split; [now left|exact Hl].
      * intros [-> _]. reflexivity.
Qed.

(** When the executions query returns the store's executions with the
    requested ids (ids unique in the store), the artifacts
    [_artifacts_not_in_use] returns are exactly, in their order, the
    candidates that no valid input event links to an active execution of
    the store. *)
Theorem not_in_use_exact (store : list Execution) (artifacts : list Artifact)
    (events : list Event) (res : list Artifact) :
  NoDup (map exec_id store) ->
  _artifacts_not_in_use is_valid_input_event is_execution_active
    (executions_of_store store) artifacts events = Ok res ->
  res = filter (fun a => negb (existsb (fun e =>
           (artifact_id e =? id a) && is_valid_input_event e &&
           existsb (fun x => (exec_id x =? execution_id e) && is_execution_active x)
             store) events)) artifacts.
Proof.
  intros Hnd H. unfold _artifacts_not_in_use in H.
  set (input_events := filter (fun e => Z_mem (artifact_id e) (map id artifacts)
                                        && is_valid_input_event e) events) in *.
  assert (Hie : forall e, In e input_events <->
            In e events /\ In (artifact_id e) (map id artifacts) /\
            is_valid_input_event e = true).
  { intros e. unfold input_events. rewrite filter_In, andb_true_iff, Z_mem_In. tauto. }
  (* the ids in use, whichever branch was taken *)
  assert (Hids : exists ids, res = filter (fun a => negb (Z_mem (id a) ids)) artifacts /\
            forall z, In z ids <->
              exists e x, In e input_events /\ artifact_id e = z /\
                In x store /\ exec_id x = execution_id e /\ is_execution_active x = true).
  { destruct (map execution_id input_events) as [|i is] eqn:Hm.
    - injection H as <-. exists []. split.
      + symmetry. apply forallb_filter_id, forallb_forall. reflexivity.
      + intros z. split; [intros []|]. intros [e [x [He _]]].
        apply (in_map execution_id) in He. rewrite Hm in He. contradiction.
    - unfold executions_of_store in H. cbn [rbind] in H.
      destruct (in_use_ids is_execution_active _ input_events) as [ids|err] eqn:Hu;
        cbn [rbind] in H; [|discriminate].
      injection H as <-. exists ids. split; [reflexivity|].
      intros z. rewrite (in_use_ids_iff _ _ _ Hu z).
      split; intros [e [x [He [Hz Hrest]]]]; exists e, x; split; [exact He| |exact He|];
        (split; [exact Hz|]).
      + rewrite <- Hm in Hrest. rewrite (lookup_store_some store _ _ x Hnd
          (in_map _ _ _ He)) in Hrest. tauto.
      + rewrite <- Hm. rewrite (lookup_store_some store _ _ x Hnd (in_map _ _ _ He)).
        tauto. }
  destruct Hids as [ids [-> Hids]].
  apply filter_ext_in. intros a Ha. f_equal.
  apply eq_iff_eq_true. rewrite Z_mem_In, Hids, existsb_exists. split.
  - intros [e [x [He [Hz [Hx [Hxe Hact]]]]]]. apply Hie in He as [He [_ Hv]].
    exists e. split; [exact He|]. rewrite Hz, Z.eqb_refl, Hv. simpl.
    apply existsb_exists. exists x. split; [exact Hx|]. now rewrite Hxe, Z.eqb_refl.
  - intros [e [He Hb]]. apply andb_true_iff in Hb as [Hb Hx].
    apply andb_true_iff in Hb as [Hz Hv]. apply Z.eqb_eq in Hz.
    apply existsb_exists in Hx as [x [Hx Hxb]]. apply andb_true_iff in Hxb as [Hxe Hact].
    apply Z.eqb_eq in Hxe.
    exists e, x. split; [apply Hie; split; [exact He|split; [rewrite Hz; now apply in_map|exact Hv]]|].
    auto.
Qed.

(** Against such a store, [_artifacts_not_in_use] raises exactly when a
    valid input event on a candidate names an execution the store does not
    hold, and then raises the [RuntimeError]. *)
Theorem not_in_use_missing_execution (store : list Execution)
    (artifacts : list Artifact) (events : list Event) (err : exn) :
  _artifacts_not_in_use is_valid_input_event is_execution_active
    (executions_of_store store) artifacts events = Err err <->
  err = RuntimeError "Could not find execution with id" /\
  exists e, In e events /\ In (artifact_id e) (map id artifacts) /\
    is_valid_input_event e = true /\
    forall x, In x store -> exec_id x <> execution_id e.
Proof.
  unfold _artifacts_not_in_use.
  set (input_events := filter (fun e => Z_mem (artifact_id e) (map id artifacts)
                                        && is_valid_input_event e) events).
  assert (Hie : forall e, In e input_events <->
            In e events /\ In (artifact_id e) (map id artifacts) /\
            is_valid_input_event e = true).
  { intros e. unfold input_events. rewrite filter_In, andb_true_iff, Z_mem_In. tauto. }
  destruct (map execution_id input_events) as [|i is] eqn:Hm.
  - split; [discriminate|]. intros [_ [e [He [Ha [Hv _]]]]].
    assert (Hin : In e input_events) by (apply Hie; auto).
    apply (in_map execution_id) in Hin. rewrite Hm in Hin. contradiction.
  - unfold executions_of_store. cbn [rbind]. rewrite <- Hm.
    destruct (in_use_ids is_execution_active _ input_events) as [ids|e1] eqn:Hu;
      cbn [rbind].
    + split; [discriminate|]. intros [-> [e [He [Ha [Hv Hnone]]]]].
      assert (Hin : In e input_events) by (apply Hie; auto).
      assert (Hl : lookup_execution (execution_id e)
                     (filter (fun y => Z_mem (exec_id y) (map execution_id input_events))
                        store) = None)
        by (apply lookup_store_none; [now apply in_map|exact Hnone]).
      pose proof (proj2 (in_use_ids_err _ _ (RuntimeError "Could not find execution with id"))
                    (conj eq_refl (ex_intro _ e (conj Hin Hl)))) as E.
      rewrite Hu in E. discriminate E.
    + split.
      * intros H. injection H as <-. apply in_use_ids_err in Hu as [-> [e [He Hl]]].
        split; [reflexivity|]. exists e.
        apply Hie in He as Hx. destruct Hx as [He' [Ha Hv]].
        split; [exact He'|split; [exact Ha|split; [exact Hv|]]].
        apply (lookup_store_none store _ _ (in_map _ _ _ He)). exact Hl.
      * intros [-> [e [He [Ha [Hv Hnone]]]]].
        assert (Hin : In e input_events) by (apply Hie; auto).
        assert (Hl : lookup_execution (execution_id e)
                       (filter (fun y => Z_mem (exec_id y) (map execution_id input_events))
                          store) = None)
          by (apply lookup_store_none; [now apply in_map|exact Hnone]).
        pose proof (proj2 (in_use_ids_err _ _ (RuntimeError "Could not find execution with id"))
                      (conj eq_refl (ex_intro _ e (conj Hin Hl)))) as E.
        rewrite Hu in E. injection E as ->. reflexivity.
Qed.


End InUseStore.

(** The sample store: execution 7 is running, execution 8 complete; the
    artifact read by 7 is excluded. *)
Lemma not_in_use_exact_witness :
  [art 2 "/out/2" 20; art 3 "/out/3" 20; art 4 "/out/4" 30]
  = filter (fun a => negb (existsb (fun e =>
       (artifact_id e =? id a) && sample_is_valid_input_event e &&
       existsb (fun x => (exec_id x =? execution_id e) && sample_is_execution_active x)
         sample_store_executions) sample_events)) ts_sample.
Proof.
  apply (not_in_use_exact sample_is_valid_input_event sample_is_execution_active
           sample_store_executions ts_sample sample_events).
  - simpl. repeat constructor; simpl; intuition discriminate.
  - vm_compute. reflexivity.
Defined.

(** A store holding only execution 8: the input event of execution 7 makes
    the filter raise. *)
Lemma not_in_use_missing_execution_witness :
  _artifacts_not_in_use sample_is_valid_input_event sample_is_execution_active
    (executions_of_store [mkExecution 8 COMPLETE]) ts_sample sample_events
  = Err (RuntimeError "Could not find execution with id").
Proof.
  apply (not_in_use_missing_execution sample_is_valid_input_event
           sample_is_execution_active).
  split; [reflexivity|]. exists (mkEvent 1 7 INPUT).
  split; [simpl; tauto|]. split; [simpl; tauto|]. split; [reflexivity|].
  intros x [<-|[]]. simpl. discriminate.
Defined.


(** *** The node-level candidates and the pass *)

Lemma not_in_use_incl (is_valid_input_event : Event -> bool)
    (is_execution_active : Execution -> bool)
    (get_executions_by_id : list Z -> result (list Execution))
    (artifacts : list Artifact) (events : list Event) (res : list Artifact) :
  _artifacts_not_in_use is_valid_input_event is_execution_active
    get_executions_by_id artifacts events = Ok res -> incl res artifacts.
Proof.
  unfold _artifacts_not_in_use.
  destruct (map execution_id _); [intros H; injection H as <-; apply incl_refl|].
  destruct (get_executions_by_id _) as [execs|e]; cbn [rbind]; [|discriminate].
  destruct (in_use_ids _ _ _) as [ids|e]; cbn [rbind]; [|discriminate].
  intros H. injection H as <-. intros a Ha. now apply filter_In in Ha.
Qed.

Lemma policy_eval_incl (artifacts : list Artifact) (policy : GarbageCollectionPolicy)
    (del : list Artifact) :
  _artifacts_to_garbage_collect_for_policy artifacts policy = Ok del ->
  incl del artifacts.
Proof.
  unfold _artifacts_to_garbage_collect_for_policy.
  destruct (policy_variant policy) as [n|gs|].
  - intros H. injection H as <-. unfold _artifacts_not_most_recently_published.
    destruct (n <=? 0); [apply incl_refl|].
    destruct (Z.of_nat (List.length artifacts) <=? n); [intros a []|].
    intros a Ha. now apply filter_In in Ha.
  - unfold _artifacts_not_kept_by_property_value_groups.
    destruct (apply_groupings gs [artifacts]); cbn [rbind]; [|discriminate].
    intros H. injection H as <-. intros a Ha. now apply filter_In in Ha.
  - intros H. injection H as <-. intros a [].
Qed.

Section NodeLevel.

Variable is_valid_input_event : Event -> bool.
Variable is_execution_active : Execution -> bool.
Variable get_live_output_artifacts_of_node_by_output_key :
  string -> string -> result (list (string * list (list Artifact))).
Variable get_events_by_artifact_ids : list Z -> result (list Event).
Variable get_executions_by_id : list Z -> result (list Execution).
Variable put_artifacts_fails : list Artifact -> bool.
Variable artifacts_not_in_use_in_pipeline_groups :
  KeepIfUsedInPipelineGroups -> list Artifact -> result (list Artifact).

Lemma policies_for_node_In (node : Node) (k : string) (p : GarbageCollectionPolicy) :
  In (k, p) (_get_garbage_collection_policies_for_node node) <->
  In (k, Some p) (outputs node).
Proof.
  unfold _get_garbage_collection_policies_for_node. rewrite in_flat_map. split.
  - intros [[k' o] [Hin Hk]]. simpl in Hk. destruct o as [p'|]; [|contradiction].
    destruct Hk as [Hk|[]]. injection Hk as <- <-. exact Hin.
  - intros Hin. exists (k, Some p). split; [exact Hin|now left].
Qed.

Lemma collect_spec (by_key : list (string * list Artifact)) (events : list Event)
    (policies : list (string * GarbageCollectionPolicy)) (res : list Artifact) :
  (forall cfg l l', artifacts_not_in_use_in_pipeline_groups cfg l = Ok l' -> incl l' l) ->
  collect_for_output_keys is_valid_input_event is_execution_active
    get_executions_by_id artifacts_not_in_use_in_pipeline_groups by_key events
    policies = Ok res ->
  forall a, In a res -> exists k p arts del,
    In (k, p) policies /\ assoc k by_key = Some arts /\
    _artifacts_to_garbage_collect_for_policy arts p = Ok del /\ In a del.
Proof.
  intros Hhook. revert res.
  induction policies as [|[k p] rest IH]; simpl; intros res H a Ha.
  - injection H as <-. contradiction.
  - destruct (assoc k by_key) as [arts|] eqn:Hk.
    + unfold _artifacts_to_garbage_collect in H.
      destruct (_artifacts_to_garbage_collect_for_policy arts p) as [r1|e] eqn:Hp;
        cbn [rbind] in H; [|discriminate].
      destruct (artifacts_not_in_use_in_pipeline_groups
                  (keep_if_used_in_pipeline_groups p) r1) as [r2|e] eqn:Hg;
        cbn [rbind] in H; [|discriminate].
      destruct (_artifacts_not_in_use is_valid_input_event is_execution_active
                  get_executions_by_id r2 events) as [here|e] eqn:Hn;
        cbn [rbind] in H; [|discriminate].
      destruct (collect_for_output_keys is_valid_input_event is_execution_active
                  get_executions_by_id artifacts_not_in_use_in_pipeline_groups by_key
                  events rest) as [later|e] eqn:Hr; cbn [rbind] in H; [|discriminate].
      injection H as <-. apply in_app_or in Ha as [Ha|Ha].
      * exists k, p, arts, r1. split; [now left|split; [exact Hk|split; [exact Hp|]]].
        apply (Hhook _ _ _ Hg), (not_in_use_incl _ _ _ _ _ _ Hn), Ha.
      * destruct (IH later eq_refl a Ha) as [k' [p' [arts' [del [Hin Hrest]]]]].
        exists k', p', arts', del. split; [now right|exact Hrest].
    + destruct (IH res H a Ha) as [k' [p' [arts' [del [Hin Hrest]]]]].
      exists k', p', arts', del. split; [now right|exact Hrest].
Qed.

(** Given a pipeline-group hook that only drops artifacts, every candidate
    of [get_artifacts_to_garbage_collect_for_node] is a live artifact of an
    output key of the node that has a garbage-collection policy, and lies
    in that policy's delete-set for the key's live artifacts: keys without
    a policy, and artifacts of other nodes, are never candidates. *)
Theorem node_candidates_from_policy_keys (node_uid : NodeUid) (node : Node)
    (by_key : list (string * list (list Artifact))) (res : list Artifact) :
  (forall cfg l l', artifacts_not_in_use_in_pipeline_groups cfg l = Ok l' -> incl l' l) ->
  get_live_output_artifacts_of_node_by_output_key (pipeline_id node_uid)
    (node_id node_uid) = Ok by_key ->
  get_artifacts_to_garbage_collect_for_node is_valid_input_event is_execution_active
    get_live_output_artifacts_of_node_by_output_key get_events_by_artifact_ids
    get_executions_by_id artifacts_not_in_use_in_pipeline_groups node_uid node = Ok res ->
  forall a, In a res -> exists k p arts del,
    In (k, Some p) (outputs node) /\
    assoc k (map (fun kn => (fst kn, List.concat (snd kn))) by_key) = Some arts /\
    In a arts /\
    _artifacts_to_garbage_collect_for_policy arts p = Ok del /\ In a del.
Proof.
  intros Hhook Hlive H a Ha.
  unfold get_artifacts_to_garbage_collect_for_node, _get_live_output_artifacts_for_node in H.
  rewrite Hlive in H. cbn [rbind] in H.
  destruct (_get_garbage_collection_policies_for_node node) as [|kp0 ps] eqn:Hps;
    [injection H as <-; contradiction|].
  destruct (map (fun kn => (fst kn, List.concat (snd kn))) by_key) as [|x l] eqn:Em;
    [injection H as <-; contradiction|].
  destruct (get_events_by_artifact_ids _) as [events|e]; cbn [rbind] in H;
    [|discriminate].
  destruct (collect_spec _ _ _ _ Hhook H a Ha) as [k [p [arts [del [Hin [Hk [Hp Hd]]]]]]].
  exists k, p, arts, del. rewrite <- Hps in Hin. apply policies_for_node_In in Hin.
  split; [exact Hin|split; [exact Hk|split; [|split; [exact Hp|exact Hd]]]].
  exact (policy_eval_incl _ _ _ Hp a Hd).
Qed.

(** A node none of whose outputs has a garbage-collection policy: its pass
    leaves the world as it is, whatever the store would answer. *)
Theorem run_without_policies_noop (node_uid : NodeUid) (node : Node) (w : World) :
  Forall (fun kp => snd kp = None) (outputs node) ->
  snd (run_garbage_collection_for_node is_valid_input_event is_execution_active
         get_live_output_artifacts_of_node_by_output_key get_events_by_artifact_ids
         get_executions_by_id put_artifacts_fails artifacts_not_in_use_in_pipeline_groups
         node_uid node w) = w.
Proof.
  intros Hnone.
  assert (Hps : _get_garbage_collection_policies_for_node node = []).
  { destruct (_get_garbage_collection_policies_for_node node) as [|[k p] ps] eqn:E;
      [reflexivity|exfalso].
    assert (Hin : In (k, p) (_get_garbage_collection_policies_for_node node))
      by (rewrite E; now left).
    apply policies_for_node_In in Hin. rewrite Forall_forall in Hnone.
    discriminate (Hnone _ Hin). }
  unfold run_garbage_collection_for_node.
  destruct (negb (String.eqb (node_info_id node) (node_id node_uid))); [reflexivity|].
  unfold try_except, bind, lift, get_artifacts_to_garbage_collect_for_node.
  rewrite Hps. reflexivity.
Qed.

(** One pass over a node writes at most one batch to the store: either the
    store writes are unchanged, or exactly one non-empty batch is appended,
    with one artifact per candidate of the node. *)
Theorem run_writes_at_most_one_batch (node_uid : NodeUid) (node : Node) (w : World) :
  let w' := snd (run_garbage_collection_for_node is_valid_input_event
                   is_execution_active get_live_output_artifacts_of_node_by_output_key
                   get_events_by_artifact_ids get_executions_by_id put_artifacts_fails
                   artifacts_not_in_use_in_pipeline_groups node_uid node w) in
  store_writes w' = store_writes w \/
  exists arts batch,
    get_artifacts_to_garbage_collect_for_node is_valid_input_event is_execution_active
      get_live_output_artifacts_of_node_by_output_key get_events_by_artifact_ids
      get_executions_by_id artifacts_not_in_use_in_pipeline_groups node_uid node
    = Ok arts /\
    store_writes w' = store_writes w ++ [batch] /\
    List.length batch = List.length arts /\ batch <> [].
Proof.
  cbv zeta. unfold run_garbage_collection_for_node.
  destruct (negb (String.eqb (node_info_id node) (node_id node_uid))); [now left|].
  unfold try_except, bind at 1, lift.
  destruct (get_artifacts_to_garbage_collect_for_node _ _ _ _ _ _ node_uid node)
    as [arts|e] eqn:Hc; [|now left].
  unfold garbage_collect_artifacts.
  destruct arts as [|a0 rest] eqn:Ea; [now left|].
  destruct (purge_loop_effects (a0 :: rest) w) as [l' [ops [f [Hl [Hf _]]]]].
  unfold bind. rewrite Hl. unfold put_artifacts.
  destruct (put_artifacts_fails l'); simpl; [now left|].
  right. exists (a0 :: rest), l'. split; [reflexivity|]. split; [reflexivity|].
  pose proof (Forall2_length Hf) as Hlen. split; [symmetry; exact Hlen|].
  intros E. rewrite E in Hlen. discriminate.
Qed.

(** When the store refuses the final write, the pass still returns
    normally, yet the storage deletions of the purge stay: the world is the
    one the purge left, and no batch is written. *)
Theorem run_put_failure_keeps_deletions (node_uid : NodeUid) (node : Node)
    (w : World) (arts : list Artifact) :
  String.eqb (node_info_id node) (node_id node_uid) = true ->
  get_artifacts_to_garbage_collect_for_node is_valid_input_event is_execution_active
    get_live_output_artifacts_of_node_by_output_key get_events_by_artifact_ids
    get_executions_by_id artifacts_not_in_use_in_pipeline_groups node_uid node = Ok arts ->
  arts <> [] ->
  (forall batch, put_artifacts_fails batch = true) ->
  run_garbage_collection_for_node is_valid_input_event is_execution_active
    get_live_output_artifacts_of_node_by_output_key get_events_by_artifact_ids
    get_executions_by_id put_artifacts_fails artifacts_not_in_use_in_pipeline_groups
    node_uid node w = (Ok tt, snd (purge_loop arts w)) /\
  store_writes (snd (purge_loop arts w)) = store_writes w.
Proof.
  intros Hid Hc Hne Hfail.
  destruct (purge_loop_effects arts w) as [l' [ops [f [Hl _]]]].
  rewrite Hl. split; [|reflexivity].
  unfold run_garbage_collection_for_node. rewrite Hid. simpl.
  unfold try_except, bind at 1, lift. rewrite Hc.
  unfold garbage_collect_artifacts.
  destruct arts as [|a0 rest]; [contradiction|].
  unfold bind. rewrite Hl. unfold put_artifacts. rewrite Hfail. reflexivity.
Qed.

End NodeLevel.

Lemma under_eqb (u p : string) : under u p = false -> String.eqb u p = false.
Proof.
  unfold under. intros H. apply orb_false_iff in H as [H _].
  now rewrite String.eqb_sym.
Qed.

Lemma purge_one_fs_frame (a : Artifact) (w : World) (p : string) :
  (_is_artifact_external a = false -> under (uri a) p = false) ->
  fs_exists (fs (snd (purge_one a w))) p = fs_exists (fs w) p /\
  fs_isdir (fs (snd (purge_one a w))) p = fs_isdir (fs w) p.
Proof.
  intros Hp. unfold purge_one.
  destruct (_is_artifact_external a) eqn:Hext; [split; reflexivity|].
  specialize (Hp eq_refl). pose proof (under_eqb _ _ Hp) as Hq.
  unfold bind. rewrite delete_artifact_uri_eq. cbv zeta.
  destruct (removal_succeeds (fs w) (uri a)); simpl;
    [|destruct (negb (fs_exists (fs w) (uri a))); split; reflexivity].
  destruct (fs_isdir (fs w) (uri a)); simpl; rewrite ?Hp, ?Hq; simpl;
    rewrite !andb_true_r; split; reflexivity.
Qed.

Lemma purge_loop_fs_frame (artifacts : list Artifact) (w : World) (p : string) :
  (forall a, In a artifacts -> _is_artifact_external a = false -> under (uri a) p = false) ->
  fs_exists (fs (snd (purge_loop artifacts w))) p = fs_exists (fs w) p /\
  fs_isdir (fs (snd (purge_loop artifacts w))) p = fs_isdir (fs w) p.
Proof.
  revert w. induction artifacts as [|a l IH]; intros w H; [split; reflexivity|].
  rewrite purge_loop_cons.
  destruct (purge_one_effects a w) as [a' [ops [Hone _]]].
  pose proof (purge_one_fs_frame a w p (H a (or_introl eq_refl))) as [E1 D1].
  rewrite Hone in E1, D1 |- *. simpl in E1, D1.
  set (w1 := mkWorld (fs (snd (purge_one a w))) (fs_trace w ++ ops) (store_writes w)) in *.
  destruct (IH w1 (fun b Hb => H b (or_intror Hb))) as [E2 D2].
  destruct (purge_loop_effects l w1) as [l' [ops' [f [Hl _]]]].
  rewrite Hl in E2, D2 |- *. simpl in *. split; congruence.
Qed.

(** [garbage_collect_artifacts] removes storage only under the uris of the
    internal artifacts it is given: every other path (a sibling such as
    ["/out/30"] next to a removed directory ["/out/3"], or the uri of an
    external artifact) keeps its existence and directory status, whether
    or not the final store write succeeds. *)
Theorem gc_artifacts_fs_frame (put_artifacts_fails : list Artifact -> bool)
    (artifacts : list Artifact) (w : World) (p : string) :
  (forall a, In a artifacts -> _is_artifact_external a = false -> under (uri a) p = false) ->
  fs_exists (fs (snd (garbage_collect_artifacts put_artifacts_fails artifacts w))) p
    = fs_exists (fs w) p /\
  fs_isdir (fs (snd (garbage_collect_artifacts put_artifacts_fails artifacts w))) p
    = fs_isdir (fs w) p.
Proof.
  intros H. unfold garbage_collect_artifacts.
  destruct artifacts as [|a0 rest] eqn:Ea; [split; reflexivity|]. rewrite <- Ea.
  pose proof (purge_loop_fs_frame artifacts w p (fun a Ha => H a (ltac:(now rewrite <- Ea)))) as [E D].
  destruct (purge_loop_effects artifacts w) as [l' [ops [f [Hl _]]]].
  rewrite Hl in E, D. simpl in E, D.
  unfold bind. rewrite Ea. rewrite <- Ea. rewrite Hl. unfold put_artifacts.
  destruct (put_artifacts_fails l'); simpl; split; assumption.
Qed.

(** A storage where ["/out/3"] is a directory holding ["/out/3/data"], next
    to a file ["/out/30"]. *)
Definition dir_fs : FileSystem :=
  mkFileSystem (fun p => String.eqb p "/out/3" || String.eqb p "/out/3/data" ||
                         String.eqb p "/out/30")
               (fun p => String.eqb p "/out/3") (fun _ => false).

Definition dir_world : World := mkWorld dir_fs [] [].

Lemma gc_artifacts_fs_frame_witness :
  fs_exists (fs (snd (garbage_collect_artifacts (fun _ => false) [art 3 "/out/3" 20]
                        dir_world))) "/out/30" = true /\
  fs_exists (fs (snd (garbage_collect_artifacts (fun _ => false) [art 3 "/out/3" 20]
                        dir_world))) "/out/3/data" = false.
Proof.
  split; [|vm_compute; reflexivity].
  rewrite (proj1 (gc_artifacts_fs_frame (fun _ => false) [art 3 "/out/3" 20] dir_world
                    "/out/30" ltac:(intros a [<-|[]] _; vm_compute; reflexivity))).
  reflexivity.
Defined.

(** A node with a policy only on "stats", and one output without one. *)
Definition stats_node : Node :=
  mkNode "Trainer" [("stats"%string, Some (kmrp_policy 1)); ("logs"%string, None)].

Definition stats_live (_ _ : string) : result (list (string * list (list Artifact))) :=
  Ok [("stats"%string, [stats_arts]); ("logs"%string, [[art 51 "/logs/51" 5]])].

Lemma node_candidates_from_policy_keys_witness :
  exists k p arts del,
    In (k, Some p) (outputs stats_node) /\
    assoc k (map (fun kn => (fst kn, List.concat (snd kn)))
               [("stats"%string, [stats_arts]); ("logs"%string, [[art 51 "/logs/51" 5]])])
      = Some arts /\
    In (art 21 "/stats/21" 10) arts /\
    _artifacts_to_garbage_collect_for_policy arts p = Ok del /\
    In (art 21 "/stats/21" 10) del.
Proof.
  apply (node_candidates_from_policy_keys sample_is_valid_input_event
           sample_is_execution_active stats_live no_events sample_get_executions_by_id
           sample_no_pipeline_groups two_key_uid stats_node
           [("stats"%string, [stats_arts]); ("logs"%string, [[art 51 "/logs/51" 5]])]
           [art 21 "/stats/21" 10]).
  - intros cfg l l' H. injection H as <-. apply incl_refl.
  - reflexivity.
  - vm_compute. reflexivity.
  - now left.
Defined.

Lemma run_without_policies_noop_witness :
  snd (run_garbage_collection_for_node sample_is_valid_input_event
         sample_is_execution_active (fun _ _ => Err (StoreError "get_live"))
         (fun _ => Err (StoreError "get_events")) (fun _ => Err (StoreError "get_executions"))
         (fun _ => true) sample_no_pipeline_groups two_key_uid
         (mkNode "Trainer" [("stats"%string, None)]) stats_world) = stats_world.
Proof.
  apply run_without_policies_noop. repeat constructor.
Defined.

(** The store refuses the write: "/stats/21" is removed all the same and
    nothing is recorded. *)
Lemma run_put_failure_keeps_deletions_witness :
  fst (run_garbage_collection_for_node sample_is_valid_input_event
         sample_is_execution_active stats_live no_events sample_get_executions_by_id
         (fun _ => true) sample_no_pipeline_groups two_key_uid stats_node stats_world)
    = Ok tt /\
  fs_exists (fs (snd (run_garbage_collection_for_node sample_is_valid_input_event
         sample_is_execution_active stats_live no_events sample_get_executions_by_id
         (fun _ => true) sample_no_pipeline_groups two_key_uid stats_node stats_world)))
    "/stats/21" = false /\
  store_writes (snd (run_garbage_collection_for_node sample_is_valid_input_event
         sample_is_execution_active stats_live no_events sample_get_executions_by_id
         (fun _ => true) sample_no_pipeline_groups two_key_uid stats_node stats_world))
    = [].
Proof.
  destruct (run_put_failure_keeps_deletions sample_is_valid_input_event
              sample_is_execution_active stats_live no_events sample_get_executions_by_id
              (fun _ => true) sample_no_pipeline_groups two_key_uid stats_node stats_world
              [art 21 "/stats/21" 10] eq_refl ltac:(vm_compute; reflexivity)
              ltac:(discriminate) (fun _ => eq_refl)) as [H Hw].
  rewrite H. split; [reflexivity|]. split; [vm_compute; reflexivity|exact Hw].
Defined.

(** *** In-use safety of the node's candidates *)

Lemma Z_dedup_In (z : Z) (l : list Z) : In z (Z_dedup l) <-> In z l.
Proof.
  induction l as [|x l IH]; simpl; [tauto|].
  destruct (Z_mem x l) eqn:E; simpl; rewrite IH; [|tauto].
  apply Z_mem_In in E. split; [now right|]. intros [<-|H]; assumption.
Qed.

Lemma assoc_In {A} (k : string) (l : list (string * A)) (x : A) :
  assoc k l = Some x -> In (k, x) l.
Proof.
  induction l as [|[k' y] l IH]; simpl; [discriminate|].
  destruct (String.eqb k k') eqn:E.
  - apply String.eqb_eq in E. subst k'. intros H. injection H as <-. now left.
  - intros H. right. exact (IH H).
Qed.

Lemma collect_here (is_valid_input_event : Event -> bool)
    (is_execution_active : Execution -> bool)
    (get_executions_by_id : list Z -> result (list Execution))
    (artifacts_not_in_use_in_pipeline_groups :
       KeepIfUsedInPipelineGroups -> list Artifact -> result (list Artifact))
    (by_key : list (string * list Artifact)) (events : list Event)
    (policies : list (string * GarbageCollectionPolicy)) (res : list Artifact) :
  collect_for_output_keys is_valid_input_event is_execution_active
    get_executions_by_id artifacts_not_in_use_in_pipeline_groups by_key events
    policies = Ok res ->
  forall a, In a res -> exists k p arts here,
    assoc k by_key = Some arts /\
    _artifacts_to_garbage_collect is_valid_input_event is_execution_active
      get_executions_by_id artifacts_not_in_use_in_pipeline_groups arts events p
    = Ok here /\ In a here.
Proof.
  revert res. induction policies as [|[k p] rest IH]; simpl; intros res H a Ha.
  - injection H as <-. contradiction.
  - destruct (assoc k by_key) as [arts|] eqn:Hk; [|exact (IH res H a Ha)].
    destruct (_artifacts_to_garbage_collect is_valid_input_event is_execution_active
                get_executions_by_id artifacts_not_in_use_in_pipeline_groups arts events p)
      as [here|e] eqn:Hh; cbn [rbind] in H; [|discriminate].
    destruct (collect_for_output_keys is_valid_input_event is_execution_active
                get_executions_by_id artifacts_not_in_use_in_pipeline_groups by_key
                events rest) as [later|e] eqn:Hr; cbn [rbind] in H; [|discriminate].
    injection H as <-. apply in_app_or in Ha as [Ha|Ha].
    + exists k, p, arts, here. auto.
    + exact (IH later eq_refl a Ha).
Qed.

(** When the events query returns the store's events for the requested
    artifact ids and the executions query returns executions of the store,
    no candidate of [get_artifacts_to_garbage_collect_for_node] is read by
    a valid input event whose execution is active: the events fetched for
    the node's deduplicated live artifact ids cover every candidate. *)
Theorem node_candidates_not_in_use
    (is_valid_input_event : Event -> bool)
    (is_execution_active : Execution -> bool)
    (get_live_output_artifacts_of_node_by_output_key :
       string -> string -> result (list (string * list (list Artifact))))
    (get_executions_by_id : list Z -> result (list Execution))
    (artifacts_not_in_use_in_pipeline_groups :
       KeepIfUsedInPipelineGroups -> list Artifact -> result (list Artifact))
    (store_events : list Event) (store_executions : list Execution)
    (node_uid : NodeUid) (node : Node) (res : list Artifact) :
  (forall cfg l l', artifacts_not_in_use_in_pipeline_groups cfg l = Ok l' -> incl l' l) ->
  store_returns_from get_executions_by_id store_executions ->
  get_artifacts_to_garbage_collect_for_node is_valid_input_event is_execution_active
    get_live_output_artifacts_of_node_by_output_key
    (fun ids => Ok (filter (fun e => Z_mem (artifact_id e) ids) store_events))
    get_executions_by_id artifacts_not_in_use_in_pipeline_groups node_uid node = Ok res ->
  forall a e x, In a res -> In e store_events -> artifact_id e = id a ->
    is_valid_input_event e = true ->
    In x store_executions -> exec_id x = execution_id e ->
    is_execution_active x = false.
Proof.
  intros Hhook Hstore H a e x Ha He Hae Hv Hx Hxe.
  unfold get_artifacts_to_garbage_collect_for_node in H.
  destruct (_get_garbage_collection_policies_for_node node) as [|kp0 ps];
    [injection H as <-; contradiction|].
  destruct (_get_live_output_artifacts_for_node get_live_output_artifacts_of_node_by_output_key
              node_uid) as [abk|err]; cbn [rbind] in H; [|discriminate].
  destruct abk as [|kv abk'] eqn:Eabk; [injection H as <-; contradiction|].
  rewrite <- Eabk in H. cbn [rbind] in H.
  set (ids := Z_dedup (map id (List.concat (map snd abk)))) in H.
  set (events := filter (fun e0 => Z_mem (artifact_id e0) ids) store_events) in H.
  destruct (collect_here _ _ _ _ _ _ _ _ H a Ha) as [k [p [arts [here [Hk [Hh Hah]]]]]].
  unfold _artifacts_to_garbage_collect in Hh.
  destruct (_artifacts_to_garbage_collect_for_policy arts p) as [r1|err] eqn:Hp;
    cbn [rbind] in Hh; [|discriminate].
  destruct (artifacts_not_in_use_in_pipeline_groups
              (keep_if_used_in_pipeline_groups p) r1) as [r2|err] eqn:Hg;
    cbn [rbind] in Hh; [|discriminate].
  assert (Harts : In a arts).
  { apply (policy_eval_incl _ _ _ Hp), (Hhook _ _ _ Hg),
      (not_in_use_incl _ _ _ _ _ _ Hh), Hah. }
  assert (He' : In e events).
  { apply filter_In. split; [exact He|]. apply Z_mem_In. unfold ids.
    apply Z_dedup_In. rewrite Hae. apply in_map, in_concat. exists arts.
    split; [|exact Harts]. apply assoc_In in Hk.
    change arts with (snd (k, arts)). now apply in_map. }
  exact (not_in_use_sound is_valid_input_event is_execution_active
           get_executions_by_id store_executions r2 events here Hstore Hh
           a e x Hah He' Hae Hv Hx Hxe).
Qed.

(** Artifact 21 is a candidate of the "stats" key; the store's input event
    on it is by execution 8, which is therefore not active. *)
Lemma node_candidates_not_in_use_witness :
  get_artifacts_to_garbage_collect_for_node sample_is_valid_input_event
    sample_is_execution_active stats_live
    (fun ids => Ok (filter (fun e => Z_mem (artifact_id e) ids) [mkEvent 21 8 INPUT]))
    sample_get_executions_by_id sample_no_pipeline_groups two_key_uid stats_node
  = Ok [art 21 "/stats/21" 10] /\
  sample_is_execution_active (mkExecution 8 COMPLETE) = false.
Proof.
  assert (Hres : get_artifacts_to_garbage_collect_for_node sample_is_valid_input_event
    sample_is_execution_active stats_live
    (fun ids => Ok (filter (fun e => Z_mem (artifact_id e) ids) [mkEvent 21 8 INPUT]))
    sample_get_executions_by_id sample_no_pipeline_groups two_key_uid stats_node
    = Ok [art 21 "/stats/21" 10]) by (vm_compute; reflexivity).
  assert (Hst : store_returns_from sample_get_executions_by_id sample_store_executions).
  { split.
    - simpl. repeat constructor; simpl; intuition discriminate.
    - intros ids execs Hq y Hy. unfold sample_get_executions_by_id in Hq.
      injection Hq as Hq. subst execs. simpl in Hy.
      repeat destruct (Z_mem _ ids); simpl in Hy; simpl; tauto. }
  split; [exact Hres|].
  exact (node_candidates_not_in_use sample_is_valid_input_event
    sample_is_execution_active stats_live sample_get_executions_by_id
    sample_no_pipeline_groups [mkEvent 21 8 INPUT] sample_store_executions
    two_key_uid stats_node _
    (fun cfg l l' Hq => ltac:(injection Hq as <-; apply incl_refl))
    Hst Hres (art 21 "/stats/21" 10) (mkEvent 21 8 INPUT) (mkExecution 8 COMPLETE)
    ltac:(now left) ltac:(now left) eq_refl eq_refl ltac:(simpl; auto) eq_refl).
Defined.
